(** * title-game-server: the room / turn state machine of [src/index.js]

    A shallow embedding of the socket.io event handlers of [index.js] as
    state-passing functions over the process-wide [rooms] object and the
    registry of live sockets, each returning the new state and the list of
    messages it emits, followed by the properties of the room state machine.

    Modelling conventions.
    - JS objects used as dictionaries ([rooms], [room.votes], [room.hands])
      are finite maps with string keys, holding the objects' own properties.
      The handlers below follow the source for keys that name no property
      of [Object.prototype]. On a key such as ["constructor"] or
      ["__proto__"] a plain object also answers with an inherited value:
      [read] and [inherited] spell that out, and the theorems that need keys
      free of it say so through [plain] and [plain_event].
    - JS arrays are lists; [push] appends at the end, [shift] and
      [splice(0, n)] consume from the front.
    - A card is a string, on which [!==] and [Array.prototype.includes]
      agree.
    - [undefined] is [None].
    - The turn counter is an unbounded natural number (JS numbers are exact
      integers far beyond any turn a room can reach).
    - The catalog [cards.json] and the outcome of the random sort in
      [createNewRoom] are not part of the handlers: the shuffled deck is an
      argument of the [join-room] event. *)

From stdpp Require Import gmap strings list fin_maps.
From Stdlib Require Import ZArith.

Local Open Scope string_scope.
Local Open Scope list_scope.

(** ** Data model *)

Abbreviation Card := string (only parsing).

(** The [usedCards] field of a [submit-title] payload is client data: it need
    not be an array. *)
Inductive UsedCards :=
| NotArray
| JsArray (cards : list Card).

Definition Array_isArray (u : UsedCards) : bool :=
  match u with NotArray => false | JsArray _ => true end.

(** [usedCards.length], read only on a value known to be an array. *)
Definition array_length (u : UsedCards) : nat :=
  match u with NotArray => 0 | JsArray cards => length cards end.

(** The negation of the rejection test of [submit-title],
    [!Array.isArray(usedCards) || usedCards.length !== 2]. *)
Definition valid_usedCards (u : UsedCards) : bool :=
  Array_isArray u && bool_decide (array_length u = 2).

Module Submission.
Record t := mk {
  playerName : string;
  title : string;
  turn : nat;
  votes : nat;
  usedCards : UsedCards
}.

Definition set_votes (v : nat) (s : t) : t :=
  {| playerName := playerName s; title := title s; turn := turn s;
     votes := v; usedCards := usedCards s |}.
End Submission.

Record Room := mkRoom {
  players : list string;
  votes : gmap string nat;
  votedPlayers : list string;
  readyPlayers : list string;
  turn : nat;
  submissions : list Submission.t;
  deck : list Card;
  hands : gmap string (list Card);
  _turnProcessed : option nat
}.

(** [socket.data] is [{}] until the socket joins a room. *)
Record SocketData := mkData { roomId : string; playerName : string }.

Record Server := mkServer {
  rooms : gmap string Room;
  sockets : list (string * option SocketData)
}.

(** ** Outbound messages *)

Inductive Msg :=
| deal_hand (hand : option (list Card))
| players_in_room (names : list string)
| title_submitted (name title : string)
| all_voted
| player_ready_next (name : string)
| next_turn (n : nat).

(** [socket_emit sid m] is [socket.emit] on the socket [sid];
    [io_to target m] is [io.to(target).emit]. *)
Inductive Out :=
| socket_emit (sid : string) (m : Msg)
| io_to (target : string) (m : Msg).

Global Instance UsedCards_eq_dec : EqDecision UsedCards.
Proof. solve_decision. Defined.
Global Instance Msg_eq_dec : EqDecision Msg.
Proof. solve_decision. Defined.
Global Instance Out_eq_dec : EqDecision Out.
Proof. solve_decision. Defined.
Global Instance SocketData_eq_dec : EqDecision SocketData.
Proof. solve_decision. Defined.

(** ** Room construction and helpers *)

Definition createNewRoom (shuffled : list Card) : Room :=
  {| players := []; votes := ∅; votedPlayers := []; readyPlayers := [];
     turn := 1; submissions := []; deck := shuffled; hands := ∅;
     _turnProcessed := None |}.

(** The body of [removePlayerFromRoom] once the room has been found. *)
Definition remove_player (name : string) (room : Room) : Room :=
  {| players := filter (λ n, n ≠ name) (players room);
     votes := delete name (votes room);
     votedPlayers := filter (λ n, n ≠ name) (votedPlayers room);
     readyPlayers := filter (λ n, n ≠ name) (readyPlayers room);
     turn := turn room;
     submissions :=
       filter (λ t, Submission.playerName t ≠ name) (submissions room);
     deck := deck room;
     hands := delete name (hands room);
     _turnProcessed := _turnProcessed room |}.

Definition removePlayerFromRoom (rid name : string)
    (rs : gmap string Room) : gmap string Room :=
  match rs !! rid with
  | None => rs
  | Some room => <[rid := remove_player name room]> rs
  end.

(** [deck.splice(0, count)]: the cards removed and the deck left. A negative
    count removes nothing. *)
Definition drawCards (deck : list Card) (count : Z) : list Card * list Card :=
  (take (Z.to_nat count) deck, drop (Z.to_nat count) deck).

(** [x || 0] on a number that may be missing. *)
Definition or_zero (o : option nat) : nat :=
  match o with Some (S n) => S n | _ => 0 end.

(** A string is truthy unless it is empty. *)
Definition truthy (s : string) : bool :=
  match s with EmptyString => false | _ => true end.

Definition set_data (sid : string) (d : SocketData)
    (ss : list (string * option SocketData)) : list (string * option SocketData) :=
  map (λ s, if decide (s.1 = sid) then (s.1, Some d) else s) ss.

(** The scan over [io.sockets.sockets.entries()] for the first socket bound
    to the given room and player. *)
Definition find_socket (ss : list (string * option SocketData))
    (rid name : string) : option string :=
  fst <$> List.find
    (λ s, bool_decide (s.2 = Some {| roomId := rid; playerName := name |})) ss.

(** ** Handlers

    Each handler reads [rooms], [room.hands] and [room.votes] as maps of own
    properties: it is the source's handler for room ids, player names and
    vote targets that name no property of [Object.prototype] (see [read]
    and [plain] further down for what the source does on the others). *)

Definition join_room (sid rid name : string) (shuffled : list Card)
    (st : Server) : Server * list Out :=
  let rs0 :=
    match rooms st !! rid with
    | None => <[rid := createNewRoom shuffled]> (rooms st)
    | Some _ => rooms st
    end in
  let rs1 := removePlayerFromRoom rid name rs0 in
  match rs1 !! rid with
  | None => (st, []) (* not reached: the room exists by now *)
  | Some room =>
    let roster := players room ++ [name] in
    let '(hand, deck') := drawCards (deck room) 7 in
    let room' :=
      {| players := roster; votes := votes room;
         votedPlayers := votedPlayers room; readyPlayers := readyPlayers room;
         turn := turn room; submissions := submissions room;
         deck := deck'; hands := <[name := hand]> (hands room);
         _turnProcessed := _turnProcessed room |} in
    ({| rooms := <[rid := room']> rs1;
        sockets := set_data sid {| roomId := rid; playerName := name |} (sockets st) |},
     [socket_emit sid (deal_hand (Some hand));
      io_to rid (players_in_room roster)])
  end.

Definition submit_title (sid rid name title : string) (used : UsedCards)
    (st : Server) : Server * list Out :=
  match rooms st !! rid with
  | None => (st, [])
  | Some room =>
    if negb (valid_usedCards used) then (st, [])
    else
      let kept :=
        filter (λ t, Submission.playerName t ≠ name) (submissions room) in
      let entry :=
        {| Submission.playerName := name; Submission.title := title;
           Submission.turn := turn room; Submission.votes := 0;
           Submission.usedCards := used |} in
      let room' :=
        {| players := players room; votes := votes room;
           votedPlayers := votedPlayers room; readyPlayers := readyPlayers room;
           turn := turn room; submissions := kept ++ [entry];
           deck := deck room; hands := hands room;
           _turnProcessed := _turnProcessed room |} in
      ({| rooms := <[rid := room']> (rooms st); sockets := sockets st |},
       [io_to rid (title_submitted name title)])
  end.

(** [submissions.find(...)] followed by the in-place increment of the found
    entry's [votes]. *)
Fixpoint count_vote (target : string) (subs : list Submission.t)
    : list Submission.t :=
  match subs with
  | [] => []
  | t :: ts =>
    if decide (Submission.playerName t = target)
    then Submission.set_votes (or_zero (Some (Submission.votes t)) + 1) t :: ts
    else t :: count_vote target ts
  end.

Definition vote (sid rid name target : string) (st : Server)
    : Server * list Out :=
  match rooms st !! rid with
  | None => (st, [])
  | Some room =>
    let voted := votedPlayers room ++ [name] in
    let room' :=
      {| players := players room;
         votes := <[target := or_zero (votes room !! target) + 1]> (votes room);
         votedPlayers := voted; readyPlayers := readyPlayers room;
         turn := turn room;
         submissions := count_vote target (submissions room);
         deck := deck room; hands := hands room;
         _turnProcessed := _turnProcessed room |} in
    ({| rooms := <[rid := room']> (rooms st); sockets := sockets st |},
     if decide (length voted = length (players room))
     then [io_to rid all_voted] else [])
  end.

Definition set_hands_deck (h : gmap string (list Card)) (d : list Card)
    (room : Room) : Room :=
  {| players := players room; votes := votes room;
     votedPlayers := votedPlayers room; readyPlayers := readyPlayers room;
     turn := turn room; submissions := submissions room;
     deck := d; hands := h; _turnProcessed := _turnProcessed room |}.

Definition discard_card (sid rid name : string) (card : Card) (st : Server)
    : Server * list Out :=
  match rooms st !! rid with
  | None => (st, [])
  | Some room =>
    match hands room !! name with
    | None => (st, [])
    | Some playerHand =>
      if negb (bool_decide (card ∈ playerHand)) then (st, [])
      else
        let rest := filter (λ c, c ≠ card) playerHand in
        match deck room with
        | [] =>
          ({| rooms :=
                <[rid := set_hands_deck (<[name := rest]> (hands room)) [] room]>
                  (rooms st);
              sockets := sockets st |}, [])
        | newCard :: deck' =>
          let hand := rest ++ [newCard] in
          ({| rooms :=
                <[rid := set_hands_deck (<[name := hand]> (hands room)) deck' room]>
                  (rooms st);
              sockets := sockets st |},
           [io_to sid (deal_hand (Some hand))])
        end
    end
  end.

Definition request_hand (sid rid name : string) (st : Server)
    : Server * list Out :=
  match rooms st !! rid with
  | None => (st, [])
  | Some room =>
    match hands room !! name with
    | None => (st, [])
    | Some hand => (st, [socket_emit sid (deal_hand (Some hand))])
    end
  end.

(** One iteration of the hand replenish loop of the turn-advancement block:
    the submitter's hand loses the used cards and is refilled to 7 from the
    deck; the new hand is sent to the submitter's socket when one is found. *)
Definition replenish (rid : string) (ss : list (string * option SocketData))
    (acc : gmap string (list Card) * list Card * list Out)
    (t : Submission.t) : gmap string (list Card) * list Card * list Out :=
  let '(hs, dk, outs) := acc in
  let name := Submission.playerName t in
  let hand := default [] (hs !! name) in
  let used :=
    match Submission.usedCards t with JsArray cards => cards | NotArray => [] end in
  let newHand := filter (λ c, c ∉ used) hand in
  let needed := (7 - Z.of_nat (length newHand))%Z in
  let '(drawn, dk') := drawCards dk needed in
  let hand' := newHand ++ drawn in
  (<[name := hand']> hs, dk',
   outs ++ match find_socket ss rid name with
           | Some s => [io_to s (deal_hand (Some hand'))]
           | None => []
           end).

(** The turn-advancement block, entered once the barrier and the
    [_turnProcessed] guard have let it through. *)
Definition advance_turn (rid : string) (ss : list (string * option SocketData))
    (room : Room) : Room * list Out :=
  let '(hs, dk, outs) :=
    fold_left (replenish rid ss) (submissions room) (hands room, deck room, []) in
  ({| players := players room; votes := ∅; votedPlayers := [];
      readyPlayers := []; turn := turn room + 1; submissions := [];
      deck := dk; hands := hs; _turnProcessed := Some (turn room) |},
   outs ++ [io_to rid (next_turn (turn room + 1))]
     ++ flat_map (λ p, match find_socket ss rid p with
                       | Some s => [io_to s (deal_hand (hs !! p))]
                       | None => []
                       end) (players room)).

Definition set_readyPlayers (l : list string) (room : Room) : Room :=
  {| players := players room; votes := votes room;
     votedPlayers := votedPlayers room; readyPlayers := l;
     turn := turn room; submissions := submissions room;
     deck := deck room; hands := hands room;
     _turnProcessed := _turnProcessed room |}.

(** The first half of the [ready-for-next-turn] handler: record the player as
    ready unless already recorded. *)
Definition mark_ready (rid name : string) (room : Room) : Room * list Out :=
  if bool_decide (name ∈ readyPlayers room) then (room, [])
  else (set_readyPlayers (readyPlayers room ++ [name]) room,
        [io_to rid (player_ready_next name)]).

Definition ready_for_next_turn (sid rid name : string) (st : Server)
    : Server * list Out :=
  match rooms st !! rid with
  | None => (st, [])
  | Some room =>
    let '(room1, outs1) := mark_ready rid name room in
    if decide (length (readyPlayers room1) = length (players room1)) then
      if decide (_turnProcessed room1 ≠ Some (turn room1)) then
        let '(room2, outs2) := advance_turn rid (sockets st) room1 in
        ({| rooms := <[rid := room2]> (rooms st); sockets := sockets st |},
         outs1 ++ outs2)
      else
        ({| rooms := <[rid := room1]> (rooms st); sockets := sockets st |}, outs1)
    else
      ({| rooms := <[rid := room1]> (rooms st); sockets := sockets st |}, outs1)
  end.

Definition socket_data (sid : string) (ss : list (string * option SocketData))
    : option SocketData :=
  mjoin (snd <$> List.find (λ s, bool_decide (s.1 = sid)) ss).

(** The transport drops the socket from the registry; the handler removes the
    player the socket was bound to and broadcasts the roster. *)
Definition disconnect (sid : string) (st : Server) : Server * list Out :=
  let ss := filter (λ s, s.1 ≠ sid) (sockets st) in
  match socket_data sid (sockets st) with
  | Some d =>
    if truthy (roomId d) && truthy (playerName d) then
      let rs := removePlayerFromRoom (roomId d) (playerName d) (rooms st) in
      ({| rooms := rs; sockets := ss |},
       [io_to (roomId d)
          (players_in_room (default [] (players <$> rs !! roomId d)))])
    else ({| rooms := rooms st; sockets := ss |}, [])
  | None => ({| rooms := rooms st; sockets := ss |}, [])
  end.

Definition connection (sid : string) (st : Server) : Server * list Out :=
  ({| rooms := rooms st; sockets := sockets st ++ [(sid, None)] |}, []).

(** ** The event loop *)

Inductive Event :=
| Connection (sid : string)
| JoinRoom (sid rid name : string) (shuffled : list Card)
| SubmitTitle (sid rid name title : string) (used : UsedCards)
| Vote (sid rid name target : string)
| DiscardCard (sid rid name : string) (card : Card)
| RequestHand (sid rid name : string)
| ReadyForNextTurn (sid rid name : string)
| Disconnect (sid : string).

Definition step (st : Server) (ev : Event) : Server * list Out :=
  match ev with
  | Connection sid => connection sid st
  | JoinRoom sid rid name shuffled => join_room sid rid name shuffled st
  | SubmitTitle sid rid name title used => submit_title sid rid name title used st
  | Vote sid rid name target => vote sid rid name target st
  | DiscardCard sid rid name card => discard_card sid rid name card st
  | RequestHand sid rid name => request_hand sid rid name st
  | ReadyForNextTurn sid rid name => ready_for_next_turn sid rid name st
  | Disconnect sid => disconnect sid st
  end.

(** Handlers run to completion one after the other. *)
Definition run (st : Server) (evs : list Event) : Server :=
  fold_left (λ s ev, (step s ev).1) evs st.

(** The outputs of the last event of a run ([[]] for the empty run). *)
Definition last_outputs (st : Server) (evs : list Event) : list Out :=
  match reverse evs with
  | [] => []
  | ev :: before => (step (run st (reverse before)) ev).2
  end.

Definition startup : Server := {| rooms := ∅; sockets := [] |}.

(** ** Observations on runs *)

Definition room_turn (rid : string) (st : Server) : option nat :=
  turn <$> rooms st !! rid.

(** The [next-turn] broadcast is the mark the turn-advancement block leaves
    in the outputs of an event. *)
Definition emits_next_turn (rid : string) (outs : list Out) : bool :=
  existsb (λ o, match o with
                | io_to target (next_turn _) => bool_decide (target = rid)
                | _ => false
                end) outs.

(** Number of events of a run at which the block ran on room [rid] while the
    room's turn was [T]. *)
Fixpoint advancements (rid : string) (T : nat) (st : Server)
    (evs : list Event) : nat :=
  match evs with
  | [] => 0
  | ev :: rest =>
    (if bool_decide (room_turn rid st = Some T)
        && emits_next_turn rid (step st ev).2
     then 1 else 0)
    + advancements rid T (step st ev).1 rest
  end.

(** Distinct names in a list, for counting distinct voters. *)
Definition distinct (l : list string) : nat := length (remove_dups l).

(** Repeated [join-room] calls under one name, each from a socket with its
    own shuffle at hand. *)
Definition rejoin (rid name : string) (calls : list (string * list Card))
    (st : Server) : Server :=
  fold_left (λ s c, (join_room c.1 rid name c.2 s).1) calls st.

Definition submissions_of (name : string) (room : Room) : list Submission.t :=
  filter (λ t, Submission.playerName t = name) (submissions room).

(** All the cards a room still holds: every hand, then the deck. *)
Definition hand_cards (hs : gmap string (list Card)) : list Card :=
  mjoin (map_to_list hs).*2.

Definition room_cards (room : Room) : list Card :=
  hand_cards (hands room) ++ deck room.

(** Cards that left a hand in the empty-deck branch of [discard-card]. *)
Definition exhaustion_loss (rid : string) (st : Server) (ev : Event) : nat :=
  match ev with
  | DiscardCard _ rid' name card =>
    match rooms st !! rid' with
    | Some room =>
      match hands room !! name with
      | Some hand =>
        if bool_decide (rid' = rid) && bool_decide (card ∈ hand)
           && bool_decide (deck room = [])
        then length hand - length (filter (λ c, c ≠ card) hand)
        else 0
      | None => 0
      end
    | None => 0
    end
  | _ => 0
  end.

Fixpoint lost_to_exhaustion (rid : string) (st : Server) (evs : list Event)
    : nat :=
  match evs with
  | [] => 0
  | ev :: rest =>
    exhaustion_loss rid st ev + lost_to_exhaustion rid (step st ev).1 rest
  end.

(** Every room created during a run gets a permutation of the catalog. *)
Definition shuffled_from (allCards : list Card) (ev : Event) : Prop :=
  match ev with
  | JoinRoom _ _ _ shuffled => shuffled ≡ₚ allCards
  | _ => True
  end.

(** The conservation property as the specification words it, for the rooms
    reached by one run from startup. *)
Definition conserved (allCards : list Card) (evs : list Event) : Prop :=
  ∀ rid room,
    rooms (run startup evs) !! rid = Some room →
    room_cards room ⊆+ allCards
    ∧ length (room_cards room)
      = length allCards - lost_to_exhaustion rid startup evs.

(** Where the cards of a room after an event come from: the same room before
    the event, or the shuffle handed to the join that created it. *)
Definition cards_from (rs : gmap string Room) (ev : Event) (rid : string)
    (room' : Room) : Prop :=
  (∃ room, rs !! rid = Some room ∧ room_cards room' ⊆+ room_cards room)
  ∨ (rs !! rid = None
     ∧ ∃ sid name shuffled,
         ev = JoinRoom sid rid name shuffled ∧ room_cards room' ⊆+ shuffled).

(** ** Catalogs and event sequences for the scenarios *)

Definition nine : list Card :=
  ["c1"; "c2"; "c3"; "c4"; "c5"; "c6"; "c7"; "c8"; "c9"].

Definition sixteen : list Card :=
  nine ++ ["d1"; "d2"; "d3"; "d4"; "d5"; "d6"; "d7"].

Definition two_joined : list Event :=
  [Connection "s1"; Connection "s2";
   JoinRoom "s1" "R1" "Alice" sixteen; JoinRoom "s2" "R1" "Bob" sixteen].

(** Alice and Bob have joined and Alice is ready: Bob's signal completes the
    barrier. *)
Definition barrier_minus_one : Server :=
  run startup (two_joined ++
    [SubmitTitle "s1" "R1" "Alice" "T" (JsArray ["c1"; "c2"]);
     ReadyForNextTurn "s1" "R1" "Alice"]).

Definition room_of (rid : string) (st : Server) : Room :=
  default (createNewRoom []) (rooms st !! rid).

(** A socket still bound to a room that does not exist. *)
Definition orphan_binding : Server :=
  {| rooms := ∅;
     sockets := [("s1", Some {| roomId := "R9"; playerName := "Zed" |})] |}.

(** A catalog of exactly one hand: the first join empties the deck. *)
Definition seven : list Card := ["c1"; "c2"; "c3"; "c4"; "c5"; "c6"; "c7"].

(** A catalog that lists the card ["A"] twice. *)
Definition doubled : list Card :=
  ["A"; "A"; "c3"; "c4"; "c5"; "c6"; "c7"; "c8"; "c9"].

Definition alone (catalog : list Card) : Server :=
  run startup [Connection "s1"; JoinRoom "s1" "R1" "Alice" catalog].

Definition hand_of (rid name : string) (st : Server) : option (list Card) :=
  rooms st !! rid ≫= λ room, hands room !! name.

(** A room whose guard field already equals its turn, with the barrier one
    signal away. *)
Definition guarded : Server :=
  {| rooms :=
       {[ "R1" := {| players := ["Alice"]; votes := ∅; votedPlayers := [];
                     readyPlayers := []; turn := 3; submissions := [];
                     deck := nine; hands := {[ "Alice" := seven ]};
                     _turnProcessed := Some 3 |} ]};
     sockets := [("s1", Some {| roomId := "R1"; playerName := "Alice" |})] |}.

(** Alice joins on the nine-card catalog and discards one card while the
    deck still has cards. *)
Definition one_discard : list Event :=
  [Connection "s1"; JoinRoom "s1" "R1" "Alice" nine;
   DiscardCard "s1" "R1" "Alice" "c1"].

(** A round on a reversed deck: two joins, a submission, a discard and the
    barrier. *)
Definition full_round : list Event :=
  [Connection "s1"; Connection "s2";
   JoinRoom "s1" "R1" "Alice" (reverse sixteen);
   JoinRoom "s2" "R1" "Bob" (reverse sixteen);
   SubmitTitle "s1" "R1" "Alice" "T" (JsArray ["d7"; "d6"]);
   DiscardCard "s2" "R1" "Bob" "c9";
   ReadyForNextTurn "s1" "R1" "Alice"; ReadyForNextTurn "s2" "R1" "Bob"].

(** ** Property reads on plain objects

    [rooms], [room.hands] and [room.votes] are object literals, so a read
    [obj[key]] that finds no own property goes on to [Object.prototype]. *)

(** The property names of [Object.prototype]. *)
Definition Object_prototype : list string :=
  ["constructor"; "__defineGetter__"; "__defineSetter__"; "hasOwnProperty";
   "__lookupGetter__"; "__lookupSetter__"; "isPrototypeOf";
   "propertyIsEnumerable"; "toString"; "valueOf"; "__proto__";
   "toLocaleString"].

Definition inherited (key : string) : bool :=
  bool_decide (key ∈ Object_prototype).

(** What [obj[key]] gives on an object literal with own properties [obj]:
    the own value; else, for an inherited name, a function of
    [Object.prototype] (the prototype object itself for ["__proto__"]),
    which is truthy and is no room, hand or number; else [undefined]. *)
Inductive Read (A : Type) :=
| own_value (a : A)
| inherited_value
| undefined.
Arguments own_value {A} a.
Arguments inherited_value {A}.
Arguments undefined {A}.

Definition read {A : Type} (obj : gmap string A) (key : string) : Read A :=
  match obj !! key with
  | Some a => own_value a
  | None => if inherited key then inherited_value else undefined
  end.

(** Truthiness of a read from [rooms] or [room.hands], whose own values are
    objects and arrays. *)
Definition is_truthy {A : Type} (r : Read A) : bool :=
  match r with undefined => false | _ => true end.

(** [const room = rooms[roomId]; if (!room) return;], the opening of every
    handler but [join-room]: the handler returns at once, goes on with the
    room, or goes on with an inherited value, on which the first access
    ([room.players.filter], [room.votes[...]], [room.hands[...]],
    [room.readyPlayers.includes], [room.submissions.filter]) throws a
    TypeError. *)
Inductive Entry :=
| returns_early
| enters (room : Room)
| enters_without_room.

Definition room_guard (rs : gmap string Room) (rid : string) : Entry :=
  match read rs rid with
  | own_value room => enters room
  | inherited_value => enters_without_room
  | undefined => returns_early
  end.

(** [if (!rooms[roomId]) rooms[roomId] = createNewRoom()] in [join-room]:
    whether the room gets created. *)
Definition join_creates (rs : gmap string Room) (rid : string) : bool :=
  negb (is_truthy (read rs rid)).

(** [room.hands[playerName]] as tested by [request-hand] on a room: whether
    a deal-hand goes out. *)
Definition request_hand_sends (room : Room) (name : string) : bool :=
  is_truthy (read (hands room) name).

(** Keys on which a read of an object literal sees own properties only. *)
Definition plain (key : string) : Prop := inherited key = false.

(** Events whose room id, player name and vote target are plain. *)
Definition plain_event (ev : Event) : Prop :=
  match ev with
  | Connection _ | Disconnect _ => True
  | JoinRoom _ rid name _ | SubmitTitle _ rid name _ _
  | DiscardCard _ rid name _ | RequestHand _ rid name
  | ReadyForNextTurn _ rid name => plain rid ∧ plain name
  | Vote _ rid name target => plain rid ∧ plain name ∧ plain target
  end.

(** ** The handlers read room by room

    What each handler does to the one room it writes, as functions on [Room];
    [step_writes] below ties them to the handlers. *)

(** The second half of [join-room]: seat the player and deal seven cards. *)
Definition deal (name : string) (room : Room) : Room :=
  {| players := players room ++ [name]; votes := votes room;
     votedPlayers := votedPlayers room; readyPlayers := readyPlayers room;
     turn := turn room; submissions := submissions room;
     deck := drop 7 (deck room);
     hands := <[name := take 7 (deck room)]> (hands room);
     _turnProcessed := _turnProcessed room |}.

Definition record_submission (name title : string) (used : UsedCards)
    (room : Room) : Room :=
  {| players := players room; votes := votes room;
     votedPlayers := votedPlayers room; readyPlayers := readyPlayers room;
     turn := turn room;
     submissions :=
       filter (λ t, Submission.playerName t ≠ name) (submissions room)
       ++ [Submission.mk name title (turn room) 0 used];
     deck := deck room; hands := hands room;
     _turnProcessed := _turnProcessed room |}.

Definition record_vote (name target : string) (room : Room) : Room :=
  {| players := players room;
     votes := <[target := or_zero (votes room !! target) + 1]> (votes room);
     votedPlayers := votedPlayers room ++ [name];
     readyPlayers := readyPlayers room; turn := turn room;
     submissions := count_vote target (submissions room);
     deck := deck room; hands := hands room;
     _turnProcessed := _turnProcessed room |}.

(** [discard-card] past its guards: the hand without the card, plus the front
    card of the deck when there is one. *)
Definition swap_card (name : string) (card : Card) (hand : list Card)
    (room : Room) : Room :=
  set_hands_deck
    (<[name := filter (λ c, c ≠ card) hand ++ take 1 (deck room)]> (hands room))
    (drop 1 (deck room)) room.

Inductive room_move (ss : list (string * option SocketData)) (rid : string)
    (room : Room) : Room → Prop :=
| move_join name :
    room_move ss rid room (deal name (remove_player name room))
| move_submit name title used :
    valid_usedCards used = true →
    room_move ss rid room (record_submission name title used room)
| move_vote name target :
    room_move ss rid room (record_vote name target room)
| move_discard name card hand :
    hands room !! name = Some hand → card ∈ hand →
    room_move ss rid room (swap_card name card hand room)
| move_ready name :
    room_move ss rid room (mark_ready rid name room).1
| move_advance name :
    length (readyPlayers (mark_ready rid name room).1) = length (players room) →
    _turnProcessed room ≠ Some (turn room) →
    room_move ss rid room
      (advance_turn rid ss (mark_ready rid name room).1).1
| move_leave name :
    room_move ss rid room (remove_player name room).

(** The room an event is about; a disconnect is about the room its socket
    is bound to. *)
Definition event_room (st : Server) (ev : Event) : option string :=
  match ev with
  | Connection _ => None
  | JoinRoom _ rid _ _ | SubmitTitle _ rid _ _ _ | Vote _ rid _ _
  | DiscardCard _ rid _ _ | RequestHand _ rid _ | ReadyForNextTurn _ rid _ =>
    Some rid
  | Disconnect sid => roomId <$> socket_data sid (sockets st)
  end.

Definition submitters (room : Room) : list string :=
  Submission.playerName <$> submissions room.

(** A deal-hand message addressed through [io.to] goes to a socket bound to
    a player of room [rid]. *)
Definition to_bound_socket (ss : list (string * option SocketData))
    (rid : string) (o : Out) : Prop :=
  match o with
  | io_to s (deal_hand _) =>
    ∃ name, (s, Some {| roomId := rid; playerName := name |}) ∈ ss
  | _ => True
  end.

(** A message sent through [io.to], not [socket.emit]. *)
Definition via_io (o : Out) : Prop :=
  match o with socket_emit _ _ => False | io_to _ _ => True end.

(** Alice on the sixteen-card catalog; she is about to join again. *)
Definition seated : Server :=
  run startup [Connection "s1"; Connection "s2";
               JoinRoom "s1" "R1" "Alice" sixteen].

(** The all-voted broadcasts to a room along a run. *)
Definition emits_all_voted (rid : string) (outs : list Out) : bool :=
  bool_decide (io_to rid all_voted ∈ outs).

Fixpoint all_voted_broadcasts (rid : string) (st : Server) (evs : list Event)
    : nat :=
  match evs with
  | [] => 0
  | ev :: rest =>
    (if emits_all_voted rid (step st ev).2 then 1 else 0)
    + all_voted_broadcasts rid (step st ev).1 rest
  end.

(** Events that leave rosters alone and do not end a turn. *)
Definition within_turn (ev : Event) : Prop :=
  match ev with
  | JoinRoom _ _ _ _ | ReadyForNextTurn _ _ _ | Disconnect _ => False
  | _ => True
  end.

(** The next-turn broadcasts to a room along a run. *)
Fixpoint next_turn_broadcasts (rid : string) (st : Server) (evs : list Event)
    : nat :=
  match evs with
  | [] => 0
  | ev :: rest =>
    (if emits_next_turn rid (step st ev).2 then 1 else 0)
    + next_turn_broadcasts rid (step st ev).1 rest
  end.

(** One registered socket, no room yet. *)
Definition lobby : Server := {| rooms := ∅; sockets := [("s1", None)] |}.

(** Two rooms with one player each. *)
Definition two_rooms : Server :=
  run startup [Connection "s1"; Connection "s2";
               JoinRoom "s1" "R1" "Alice" nine; JoinRoom "s2" "R2" "Bob" nine].

(** * Properties *)

(** ** Scenarios of the specification *)

Example scenario_A :
  (players <$> rooms (run startup two_joined) !! "R1") = Some ["Alice"; "Bob"]
  ∧ (hands <$> rooms (run startup two_joined) !! "R1") ≫= (.!! "Alice")
    = Some ["c1"; "c2"; "c3"; "c4"; "c5"; "c6"; "c7"]
  ∧ last_outputs startup two_joined
    = [socket_emit "s2" (deal_hand (Some ["c8"; "c9"; "d1"; "d2"; "d3"; "d4"; "d5"]));
       io_to "R1" (players_in_room ["Alice"; "Bob"])].
Proof. vm_compute. done. Qed.

Example scenario_C :
  last_outputs startup (two_joined ++ [Vote "s2" "R1" "Bob" "Alice"]) = []
  ∧ last_outputs startup
      (two_joined ++ [Vote "s2" "R1" "Bob" "Alice"; Vote "s1" "R1" "Alice" "Bob"])
    = [io_to "R1" all_voted].
Proof. vm_compute. done. Qed.

Example scenario_D :
  let evs := two_joined ++
    [SubmitTitle "s1" "R1" "Alice" "T" (JsArray ["c1"; "c2"]);
     ReadyForNextTurn "s1" "R1" "Alice"; ReadyForNextTurn "s2" "R1" "Bob"] in
  room_turn "R1" (run startup evs) = Some 2
  ∧ last_outputs startup evs
    = [io_to "R1" (player_ready_next "Bob");
       io_to "s1" (deal_hand (Some ["c3"; "c4"; "c5"; "c6"; "c7"; "d6"; "d7"]));
       io_to "R1" (next_turn 2);
       io_to "s1" (deal_hand (Some ["c3"; "c4"; "c5"; "c6"; "c7"; "d6"; "d7"]));
       io_to "s2" (deal_hand (Some ["c8"; "c9"; "d1"; "d2"; "d3"; "d4"; "d5"]))].
Proof. vm_compute. done. Qed.

(** ** List facts *)

Section ListFacts.
Context {A : Type} (P : A → Prop) `{!∀ x, Decision (P x)}.

Lemma filter_none (l : list A) : Forall (λ x, ¬ P x) l → filter P l = [].
Proof.
  induction 1 as [|x l Hx _ IH]; [done|].
  by rewrite filter_cons_False.
Qed.

Lemma filter_complement_none (l : list A) :
  filter P (filter (λ x, ¬ P x) l) = [].
Proof.
  apply filter_none, Forall_forall.
  by intros x [? _]%list_elem_of_filter.
Qed.
End ListFacts.

(** ** Helper lemmas on the handlers *)

Section Helpers.
Implicit Types (st : Server) (room : Room) (sid rid name : string).

Lemma mark_ready_frame rid name room :
  let room1 := (mark_ready rid name room).1 in
  players room1 = players room ∧ votes room1 = votes room
  ∧ votedPlayers room1 = votedPlayers room ∧ turn room1 = turn room
  ∧ submissions room1 = submissions room ∧ deck room1 = deck room
  ∧ hands room1 = hands room ∧ _turnProcessed room1 = _turnProcessed room.
Proof. unfold mark_ready. case_bool_decide; simpl; repeat split. Qed.

Lemma mark_ready_quiet obs rid name room :
  emits_next_turn obs (mark_ready rid name room).2 = false.
Proof. unfold mark_ready. by case_bool_decide. Qed.

Lemma emits_next_turn_app obs (o1 o2 : list Out) :
  emits_next_turn obs (o1 ++ o2)
  = emits_next_turn obs o1 || emits_next_turn obs o2.
Proof. apply existsb_app. Qed.

(** The replenish loop sends nothing but hands. *)
Lemma replenish_quiet obs rid ss (subs : list Submission.t) hs dk outs :
  emits_next_turn obs outs = false →
  emits_next_turn obs (fold_left (replenish rid ss) subs (hs, dk, outs)).2
  = false.
Proof.
  revert hs dk outs.
  induction subs as [|t subs IH]; intros hs dk outs Hq; [done|].
  cbn [fold_left]. unfold replenish at 2. cbn [drawCards]. apply IH.
  rewrite emits_next_turn_app, Hq. by destruct (find_socket _ _ _).
Qed.

(** So does the closing loop over the roster. *)
Lemma resend_quiet obs rid ss (hs : gmap string (list Card)) (l : list string) :
  emits_next_turn obs
    (flat_map (λ p, match find_socket ss rid p with
                    | Some s => [io_to s (deal_hand (hs !! p))]
                    | None => []
                    end) l) = false.
Proof.
  induction l as [|p l IH]; [done|].
  cbn [flat_map]. rewrite emits_next_turn_app, IH.
  by destruct (find_socket _ _ _).
Qed.

Lemma advance_turn_emits obs rid ss room :
  emits_next_turn obs (advance_turn rid ss room).2 = bool_decide (rid = obs).
Proof.
  unfold advance_turn.
  pose proof (replenish_quiet obs rid ss (submissions room)
                (hands room) (deck room) [] eq_refl) as Hq.
  destruct (fold_left _ _ _) as [[hs dk] outs].
  cbn [fst snd] in *. rewrite !emits_next_turn_app, Hq, resend_quiet.
  simpl. by rewrite !orb_false_r.
Qed.

Lemma advance_turn_room rid ss room :
  let room' := (advance_turn rid ss room).1 in
  players room' = players room ∧ votes room' = ∅ ∧ votedPlayers room' = []
  ∧ readyPlayers room' = [] ∧ submissions room' = []
  ∧ turn room' = turn room + 1 ∧ _turnProcessed room' = Some (turn room).
Proof.
  unfold advance_turn.
  destruct (fold_left _ _ _) as [[hs dk] outs]. simpl. repeat split.
Qed.

(** What [ready-for-next-turn] does on an existing room: the block runs
    exactly when the barrier holds and the guard lets it through, and the
    [next-turn] broadcast tells which of the two happened. *)
Lemma ready_for_next_turn_cases sid rid name st room :
  rooms st !! rid = Some room →
  let room1 := (mark_ready rid name room).1 in
  let res := ready_for_next_turn sid rid name st in
  (length (readyPlayers room1) = length (players room)
   ∧ _turnProcessed room ≠ Some (turn room)
   ∧ emits_next_turn rid res.2 = true
   ∧ rooms res.1 = <[rid := (advance_turn rid (sockets st) room1).1]> (rooms st))
  ∨ (¬ (length (readyPlayers room1) = length (players room)
        ∧ _turnProcessed room ≠ Some (turn room))
     ∧ emits_next_turn rid res.2 = false
     ∧ rooms res.1 = <[rid := room1]> (rooms st)).
Proof.
  intros Hroom room1 res. subst res room1. unfold ready_for_next_turn.
  rewrite Hroom.
  pose proof (mark_ready_frame rid name room) as (Hp & _ & _ & Ht & _ & _ & _ & Hg).
  pose proof (mark_ready_quiet rid rid name room) as Hq.
  destruct (mark_ready rid name room) as [room1 outs1]. simpl in *.
  rewrite Hp, Hg, Ht.
  destruct (decide (length (readyPlayers room1) = length (players room)));
    [destruct (decide (_turnProcessed room ≠ Some (turn room)))|].
  - left.
    pose proof (advance_turn_emits rid rid (sockets st) room1) as He.
    rewrite bool_decide_eq_true_2 in He by done.
    destruct (advance_turn rid (sockets st) room1) as [room2 outs2].
    simpl in *. rewrite emits_next_turn_app, He, orb_true_r. done.
  - right. simpl. split_and!; [tauto|done..].
  - right. simpl. split_and!; [tauto|done..].
Qed.

Lemma ready_for_next_turn_other obs sid rid name st :
  obs ≠ rid →
  emits_next_turn obs (ready_for_next_turn sid rid name st).2 = false
  ∧ rooms (ready_for_next_turn sid rid name st).1 !! obs = rooms st !! obs.
Proof.
  intros Hne. unfold ready_for_next_turn.
  destruct (rooms st !! rid) as [room|]; [|done].
  pose proof (mark_ready_quiet obs rid name room) as Hq.
  destruct (mark_ready rid name room) as [room1 outs1]. simpl in Hq.
  repeat case_decide; simpl; try (by rewrite lookup_insert_ne).
  pose proof (advance_turn_emits obs rid (sockets st) room1) as He.
  rewrite bool_decide_eq_false_2 in He by done.
  destruct (advance_turn rid (sockets st) room1) as [room2 outs2].
  simpl in *. rewrite emits_next_turn_app, Hq, He.
  by rewrite lookup_insert_ne.
Qed.

(** [join-room] always ends with the room in place: the player is removed
    from the room found or just created, then added back with a hand drawn
    from the front of the deck. *)
Lemma join_room_eq sid rid name shuffled st :
  let room := remove_player name
                (default (createNewRoom shuffled) (rooms st !! rid)) in
  join_room sid rid name shuffled st
  = ({| rooms :=
          <[rid := {| players := players room ++ [name];
                      votes := votes room;
                      votedPlayers := votedPlayers room;
                      readyPlayers := readyPlayers room;
                      turn := turn room;
                      submissions := submissions room;
                      deck := drop 7 (deck room);
                      hands := <[name := take 7 (deck room)]> (hands room);
                      _turnProcessed := _turnProcessed room |}]> (rooms st);
        sockets :=
          set_data sid {| roomId := rid; playerName := name |} (sockets st) |},
     [socket_emit sid (deal_hand (Some (take 7 (deck room))));
      io_to rid (players_in_room (players room ++ [name]))]).
Proof.
  unfold join_room, removePlayerFromRoom.
  destruct (rooms st !! rid) as [room0|] eqn:Hroom; simpl.
  - rewrite Hroom, lookup_insert_eq. simpl. by rewrite insert_insert_eq.
  - rewrite lookup_insert_eq, lookup_insert_eq. simpl.
    by rewrite !insert_insert_eq.
Qed.

(** Two shapes cover every handler: the rooms are left alone, or one room
    is written back. *)
Lemma turn_kept (rs : gmap string Room) rid (outs : list Out) :
  emits_next_turn rid outs = false →
  match rs !! rid with
  | Some room =>
    ∃ room', rs !! rid = Some room'
      ∧ turn room' = if emits_next_turn rid outs
                     then turn room + 1 else turn room
  | None => emits_next_turn rid outs = false
  end.
Proof.
  intros ->. destruct (rs !! rid) as [room|] eqn:Hroom; [|done]. by eexists.
Qed.

Lemma turn_written (rs : gmap string Room) rid rid' room0 room' (outs : list Out) :
  rs !! rid' = Some room0 →
  turn room' = (if emits_next_turn rid' outs
                then turn room0 + 1 else turn room0) →
  (rid ≠ rid' → emits_next_turn rid outs = false) →
  match rs !! rid with
  | Some room =>
    ∃ r, <[rid' := room']> rs !! rid = Some r
      ∧ turn r = if emits_next_turn rid outs
                 then turn room + 1 else turn room
  | None => emits_next_turn rid outs = false
  end.
Proof.
  intros Hroom0 Hturn Hother.
  destruct (decide (rid = rid')) as [->|Hne].
  - rewrite Hroom0, lookup_insert_eq. by eexists.
  - rewrite lookup_insert_ne by done. rewrite (Hother Hne).
    destruct (rs !! rid) as [room|]; [|done]. by eexists.
Qed.

(** The turn of a room changes only when the block runs on it, and then by
    one; a room never disappears. *)
Lemma step_turn st ev rid :
  match rooms st !! rid with
  | Some room =>
    ∃ room', rooms (step st ev).1 !! rid = Some room'
      ∧ turn room' = if emits_next_turn rid (step st ev).2
                     then turn room + 1 else turn room
  | None => emits_next_turn rid (step st ev).2 = false
  end.
Proof.
  destruct ev as [sid|sid rid' name sh|sid rid' name title used
                 |sid rid' name target|sid rid' name card|sid rid' name
                 |sid rid' name|sid]; cbn [step].
  - by apply turn_kept.
  - rewrite join_room_eq. cbn [fst snd rooms].
    destruct (decide (rid' = rid)) as [->|Hne].
    + rewrite lookup_insert_eq.
      destruct (rooms st !! rid) as [room|]; [|done]. by eexists.
    + rewrite lookup_insert_ne by done. by apply turn_kept.
  - unfold submit_title.
    destruct (rooms st !! rid') as [room0|] eqn:Hroom0;
      [destruct (negb (valid_usedCards used))|];
      try (by apply turn_kept).
    by apply (turn_written _ _ _ room0).
  - unfold vote.
    destruct (rooms st !! rid') as [room0|] eqn:Hroom0;
      [|by apply turn_kept].
    apply (turn_written _ _ _ room0); [done| |]; by case_decide.
  - unfold discard_card.
    destruct (rooms st !! rid') as [room0|] eqn:Hroom0;
      [|by apply turn_kept].
    destruct (hands room0 !! name) as [hand|]; [|by apply turn_kept].
    destruct (negb _); [by apply turn_kept|].
    destruct (deck room0); by apply (turn_written _ _ _ room0).
  - unfold request_hand.
    destruct (rooms st !! rid') as [room0|]; [|by apply turn_kept].
    destruct (hands room0 !! name); by apply turn_kept.
  - destruct (decide (rid = rid')) as [->|Hne].
    + destruct (rooms st !! rid') as [room0|] eqn:Hroom0.
      * pose proof (mark_ready_frame rid' name room0)
          as (_ & _ & _ & Ht1 & _).
        pose proof (advance_turn_room rid' (sockets st)
                      (mark_ready rid' name room0).1)
          as (_ & _ & _ & _ & _ & Ht2 & _).
        simpl in Ht1, Ht2.
        destruct (ready_for_next_turn_cases sid rid' name st room0 Hroom0)
          as [(_ & _ & -> & ->)|(_ & -> & ->)];
          rewrite lookup_insert_eq; eexists; (split; [done|]); congruence.
      * unfold ready_for_next_turn. by rewrite Hroom0.
    + destruct (ready_for_next_turn_other rid sid rid' name st Hne)
        as [He Hr].
      rewrite Hr. by apply turn_kept.
  - unfold disconnect.
    destruct (socket_data sid (sockets st)) as [d|]; [|by apply turn_kept].
    destruct (truthy (roomId d) && truthy (playerName d));
      [|by apply turn_kept].
    cbn [fst snd rooms]. unfold removePlayerFromRoom.
    destruct (rooms st !! roomId d) as [room0|] eqn:Hroom0;
      [|by apply turn_kept].
    by apply (turn_written _ _ _ room0).
Qed.
End Helpers.

(** ** Turn advancement resets the per-turn state *)

(** C3: immediately after the turn-advancement block has run on a room (the
    handler broadcast [next-turn]), the room's votes mapping, votedPlayers,
    readyPlayers and submissions are all empty and its turn is exactly one
    more than before. *)
Theorem advance_clears_turn_state sid rid name st room :
  rooms st !! rid = Some room →
  emits_next_turn rid (ready_for_next_turn sid rid name st).2 = true →
  ∃ room',
    rooms (ready_for_next_turn sid rid name st).1 !! rid = Some room'
    ∧ votes room' = ∅ ∧ votedPlayers room' = [] ∧ readyPlayers room' = []
    ∧ submissions room' = [] ∧ turn room' = turn room + 1.
Proof.
  intros Hroom Hemit.
  destruct (ready_for_next_turn_cases sid rid name st room Hroom)
    as [(_ & _ & _ & Hrooms)|(_ & Hno & _)]; [|congruence].
  rewrite Hrooms, lookup_insert_eq.
  pose proof (advance_turn_room rid (sockets st) (mark_ready rid name room).1)
    as (_ & Hv & Hvp & Hrp & Hs & Ht & _).
  pose proof (mark_ready_frame rid name room) as (_ & _ & _ & Ht1 & _).
  eexists. split; [done|]. simpl in *. rewrite Ht, Ht1. done.
Qed.

Lemma advance_clears_turn_state_witness :
  ∃ room',
    rooms (ready_for_next_turn "s2" "R1" "Bob" barrier_minus_one).1 !! "R1"
      = Some room'
    ∧ votes room' = ∅ ∧ votedPlayers room' = [] ∧ readyPlayers room' = []
    ∧ submissions room' = []
    ∧ turn room' = turn (room_of "R1" barrier_minus_one) + 1.
Proof.
  apply (advance_clears_turn_state "s2" "R1" "Bob" barrier_minus_one
           (room_of "R1" barrier_minus_one)).
  - vm_compute. reflexivity.
  - vm_compute. reflexivity.
Defined.

(** ** Events on rooms that do not exist *)

(** On a plain key a read sees the own properties and nothing else, so the
    guards of the handlers are the map lookups used above. *)
Lemma read_plain {A : Type} (obj : gmap string A) key :
  plain key →
  read obj key = match obj !! key with
                 | Some a => own_value a
                 | None => undefined
                 end.
Proof. unfold plain, read. intros ->. by destruct (obj !! key). Qed.

Lemma room_guard_plain (rs : gmap string Room) rid :
  plain rid →
  room_guard rs rid = match rs !! rid with
                      | Some room => enters room
                      | None => returns_early
                      end.
Proof.
  intros Hplain. unfold room_guard. rewrite read_plain by done.
  by destruct (rs !! rid).
Qed.

(** C9: an event naming a room that does not exist is to be a silent no-op.
    For the room id ["constructor"] no room exists, yet the read
    [rooms[roomId]] answers with the inherited function, the guard
    [if (!room) return] does not return, and the handler goes on without a
    room (its next access throws a TypeError); likewise for ["toString"]
    once other rooms exist. *)
Theorem inherited_room_id_passes_guard :
  rooms startup !! "constructor" = None
  ∧ read (rooms startup) "constructor" = inherited_value
  ∧ room_guard (rooms startup) "constructor" = enters_without_room
  ∧ rooms (run startup two_joined) !! "toString" = None
  ∧ room_guard (rooms (run startup two_joined)) "toString"
    = enters_without_room.
Proof. vm_compute. done. Qed.

(** X23: for a room id that names no property of [Object.prototype] and has
    no room, the guard [if (!room) return] returns at once: submit-title,
    vote, discard-card, request-hand and ready-for-next-turn leave the state
    unchanged and emit nothing, [removePlayerFromRoom] leaves the rooms as
    they are, and the disconnect of a socket bound to such a room leaves the
    rooms as they are and sends the empty roster, or nothing when the bound
    room id or name is empty. *)
Theorem unknown_room_is_noop st rid :
  plain rid → rooms st !! rid = None →
  room_guard (rooms st) rid = returns_early
  ∧ (∀ sid name title used, submit_title sid rid name title used st = (st, []))
  ∧ (∀ sid name target, vote sid rid name target st = (st, []))
  ∧ (∀ sid name card, discard_card sid rid name card st = (st, []))
  ∧ (∀ sid name, request_hand sid rid name st = (st, []))
  ∧ (∀ sid name, ready_for_next_turn sid rid name st = (st, []))
  ∧ (∀ name, removePlayerFromRoom rid name (rooms st) = rooms st)
  ∧ (∀ sid name,
       socket_data sid (sockets st) = Some {| roomId := rid; playerName := name |} →
       rooms (disconnect sid st).1 = rooms st
       ∧ (disconnect sid st).2
         = if truthy rid && truthy name
           then [io_to rid (players_in_room [])] else []).
Proof.
  intros Hplain Hnone. split_and!; intros.
  - by rewrite room_guard_plain, Hnone.
  - unfold submit_title. by rewrite Hnone.
  - unfold vote. by rewrite Hnone.
  - unfold discard_card. by rewrite Hnone.
  - unfold request_hand. by rewrite Hnone.
  - unfold ready_for_next_turn. by rewrite Hnone.
  - unfold removePlayerFromRoom. by rewrite Hnone.
  - unfold disconnect. rewrite H. cbn [roomId playerName].
    destruct (truthy rid && truthy name); cbn [fst snd rooms]; [|done].
    unfold removePlayerFromRoom. by rewrite Hnone, Hnone.
Qed.

Lemma unknown_room_is_noop_witness :
  room_guard (rooms orphan_binding) "R9" = returns_early
  ∧ (∀ sid name title used,
       submit_title sid "R9" name title used orphan_binding = (orphan_binding, []))
  ∧ (∀ sid name target, vote sid "R9" name target orphan_binding = (orphan_binding, []))
  ∧ (∀ sid name card, discard_card sid "R9" name card orphan_binding = (orphan_binding, []))
  ∧ (∀ sid name, request_hand sid "R9" name orphan_binding = (orphan_binding, []))
  ∧ (∀ sid name, ready_for_next_turn sid "R9" name orphan_binding = (orphan_binding, []))
  ∧ (∀ name, removePlayerFromRoom "R9" name (rooms orphan_binding) = rooms orphan_binding)
  ∧ (∀ sid name,
       socket_data sid (sockets orphan_binding)
         = Some {| roomId := "R9"; playerName := name |} →
       rooms (disconnect sid orphan_binding).1 = rooms orphan_binding
       ∧ (disconnect sid orphan_binding).2
         = if truthy "R9" && truthy name
           then [io_to "R9" (players_in_room [])] else []).
Proof.
  apply (unknown_room_is_noop orphan_binding "R9").
  - vm_compute. reflexivity.
  - reflexivity.
Defined.

(** On disconnect of a socket bound to a missing room the only thing sent is
    the empty roster. *)
Example disconnect_orphan :
  disconnect "s1" orphan_binding
  = ({| rooms := ∅; sockets := [] |}, [io_to "R9" (players_in_room [])]).
Proof. vm_compute. reflexivity. Qed.

(** ** request-hand *)

(** C10: request-hand is to reply if and only if a hand is recorded for the
    player. In the room of Alice and Bob no hand is recorded for the name
    ["constructor"], yet [room.hands[playerName]] answers with the inherited
    function, which is truthy, so the test of the handler passes and a
    deal-hand goes out. *)
Theorem inherited_name_gets_deal_hand :
  rooms (run startup two_joined) !! "R1"
    = Some (room_of "R1" (run startup two_joined))
  ∧ hands (room_of "R1" (run startup two_joined)) !! "constructor" = None
  ∧ read (hands (room_of "R1" (run startup two_joined))) "constructor"
    = inherited_value
  ∧ request_hand_sends (room_of "R1" (run startup two_joined)) "constructor"
    = true.
Proof. vm_compute. done. Qed.

(** X24: in a state reached from startup by events whose room ids, player
    names and vote targets name no property of [Object.prototype], and for a
    room id and a player name of that kind, request-hand never changes the
    server state, and it emits a deal-hand reply, carrying the recorded hand
    and addressed to the requesting socket, if and only if the room exists
    and holds a hand for the player, which is when the guards of the handler
    pass; otherwise it emits nothing. *)
Theorem request_hand_reads_only evs sid rid name :
  Forall plain_event evs → plain rid → plain name →
  let st := run startup evs in
  (request_hand sid rid name st).1 = st
  ∧ ((request_hand sid rid name st).2 ≠ [] ↔
       ∃ room hand, rooms st !! rid = Some room ∧ hands room !! name = Some hand)
  ∧ ((request_hand sid rid name st).2 ≠ [] ↔
       ∃ room, room_guard (rooms st) rid = enters room
               ∧ request_hand_sends room name = true)
  ∧ (∀ room hand,
       rooms st !! rid = Some room → hands room !! name = Some hand →
       (request_hand sid rid name st).2 = [socket_emit sid (deal_hand (Some hand))]).
Proof.
  intros _ Hrid Hname st. rewrite room_guard_plain by done.
  unfold request_hand, request_hand_sends.
  destruct (rooms st !! rid) as [room|] eqn:Hroom.
  - assert (∀ room', is_truthy (read (hands room') name)
                     = bool_decide (is_Some (hands room' !! name))) as Hread.
    { intros room'. rewrite read_plain by done.
      by destruct (hands room' !! name). }
    destruct (hands room !! name) as [hand|] eqn:Hhand; simpl.
    + split_and!; [done| | |intros ?? [= <-] ?; congruence].
      * split; [intros _; by eauto|done].
      * split; [intros _|done]. exists room. by rewrite Hread, Hhand.
    + split_and!; [done| | |intros ?? [= <-] ?; congruence].
      * split; [done|]. intros (room' & hand & [= <-] & ?). congruence.
      * split; [done|]. intros (room' & [= <-] & Hsend).
        by rewrite Hread, Hhand in Hsend.
  - split_and!; [done| | |done].
    + split; [done|]. by intros (? & ? & ? & _).
    + split; [done|]. by intros (? & ? & _).
Qed.

Lemma request_hand_reads_only_witness :
  (request_hand "s2" "R1" "Alice" (run startup two_joined)).1
    = run startup two_joined
  ∧ ((request_hand "s2" "R1" "Alice" (run startup two_joined)).2 ≠ [] ↔
       ∃ room hand, rooms (run startup two_joined) !! "R1" = Some room
                    ∧ hands room !! "Alice" = Some hand)
  ∧ ((request_hand "s2" "R1" "Alice" (run startup two_joined)).2 ≠ [] ↔
       ∃ room, room_guard (rooms (run startup two_joined)) "R1" = enters room
               ∧ request_hand_sends room "Alice" = true)
  ∧ (∀ room hand,
       rooms (run startup two_joined) !! "R1" = Some room →
       hands room !! "Alice" = Some hand →
       (request_hand "s2" "R1" "Alice" (run startup two_joined)).2
       = [socket_emit "s2" (deal_hand (Some hand))]).
Proof.
  apply (request_hand_reads_only two_joined "s2" "R1" "Alice").
  - repeat constructor.
  - vm_compute. reflexivity.
  - vm_compute. reflexivity.
Defined.

(** ** submit-title *)

(** C5: a submit-title call whose usedCards is not an array of exactly two
    cards changes nothing and sends nothing; otherwise, on an existing room,
    the player's earlier submission is dropped and one new submission with
    [votes = 0] is appended, so that the player has exactly one submission,
    and the title is broadcast to the room. *)
Theorem submit_title_one_per_player sid rid name title used st :
  ((∀ c1 c2, used ≠ JsArray [c1; c2]) →
   submit_title sid rid name title used st = (st, []))
  ∧ (∀ c1 c2 room,
       used = JsArray [c1; c2] → rooms st !! rid = Some room →
       ∃ room',
         rooms (submit_title sid rid name title used st).1 !! rid = Some room'
         ∧ submissions room'
           = filter (λ t, Submission.playerName t ≠ name) (submissions room)
             ++ [Submission.mk name title (turn room) 0 used]
         ∧ submissions_of name room'
           = [Submission.mk name title (turn room) 0 used]
         ∧ (submit_title sid rid name title used st).2
           = [io_to rid (title_submitted name title)]).
Proof.
  split.
  - intros Hbad. unfold submit_title.
    destruct (rooms st !! rid); [|done].
    assert (valid_usedCards used = false) as ->; [|done].
    destruct used as [|[|a [|b [|c l]]]]; simpl; try done.
    by destruct (Hbad a b).
  - intros c1 c2 room -> Hroom. unfold submit_title. rewrite Hroom. simpl.
    rewrite lookup_insert_eq. eexists. split; [done|]. simpl.
    split_and!; [done| |done].
    unfold submissions_of. simpl. rewrite filter_app.
    rewrite (filter_none (λ t, Submission.playerName t = name)).
    + by rewrite filter_cons_True.
    + apply Forall_forall. by intros t [? _]%list_elem_of_filter.
Qed.

Lemma submit_title_one_per_player_witness :
  submit_title "s1" "R1" "Alice" "T" (JsArray ["c1"]) (alone nine)
    = (alone nine, [])
  ∧ ∃ room',
      rooms (submit_title "s1" "R1" "Alice" "T" (JsArray ["c1"; "c2"])
               (alone nine)).1 !! "R1" = Some room'
      ∧ submissions room'
        = filter (λ t, Submission.playerName t ≠ "Alice")
            (submissions (room_of "R1" (alone nine)))
          ++ [Submission.mk "Alice" "T" (turn (room_of "R1" (alone nine))) 0
                (JsArray ["c1"; "c2"])]
      ∧ submissions_of "Alice" room'
        = [Submission.mk "Alice" "T" (turn (room_of "R1" (alone nine))) 0
             (JsArray ["c1"; "c2"])]
      ∧ (submit_title "s1" "R1" "Alice" "T" (JsArray ["c1"; "c2"])
           (alone nine)).2
        = [io_to "R1" (title_submitted "Alice" "T")].
Proof.
  split.
  - apply (submit_title_one_per_player "s1" "R1" "Alice" "T" (JsArray ["c1"])).
    intros c1 c2. discriminate.
  - apply (proj2 (submit_title_one_per_player "s1" "R1" "Alice" "T"
                    (JsArray ["c1"; "c2"]) (alone nine)) "c1" "c2").
    + reflexivity.
    + vm_compute. reflexivity.
Defined.

(** Scenario B: a second submission by Alice replaces the first. *)
Example scenario_B :
  let st := run (alone nine)
    [SubmitTitle "s1" "R1" "Alice" "T" (JsArray ["c1"; "c2"]);
     SubmitTitle "s1" "R1" "Alice" "U" (JsArray ["c3"; "c4"])] in
  submissions (room_of "R1" st)
  = [Submission.mk "Alice" "U" 1 0 (JsArray ["c3"; "c4"])].
Proof. vm_compute. reflexivity. Qed.

(** ** discard-card *)

(** With a card to draw, the hand loses every copy of the discarded card and
    gains the front card of the deck; the new hand goes to the requesting
    socket and to nobody else. *)
Lemma discard_card_draws sid rid name card st room hand front rest :
  rooms st !! rid = Some room → hands room !! name = Some hand →
  card ∈ hand → deck room = front :: rest →
  let hand' := filter (λ c, c ≠ card) hand ++ [front] in
  discard_card sid rid name card st
  = ({| rooms := <[rid := set_hands_deck (<[name := hand']> (hands room)) rest room]>
                   (rooms st);
        sockets := sockets st |},
     [io_to sid (deal_hand (Some hand'))]).
Proof.
  intros Hroom Hhand Hin Hdeck. unfold discard_card.
  rewrite Hroom, Hhand, Hdeck. by rewrite bool_decide_eq_true_2.
Qed.

(** When the hand holds the card once, the swap is one for one. *)
Lemma discard_card_single sid rid name card st room l1 l2 front rest :
  rooms st !! rid = Some room →
  hands room !! name = Some (l1 ++ card :: l2) →
  card ∉ l1 → card ∉ l2 → deck room = front :: rest →
  hand_of rid name (discard_card sid rid name card st).1
  = Some (l1 ++ l2 ++ [front]).
Proof.
  intros Hroom Hhand H1 H2 Hdeck.
  rewrite (discard_card_draws sid rid name card st room _ front rest Hroom Hhand);
    [|set_solver|done].
  unfold hand_of. simpl. rewrite lookup_insert_eq. simpl.
  rewrite lookup_insert_eq. f_equal.
  rewrite filter_app, filter_cons_False by tauto.
  assert (∀ l : list string, card ∉ l → filter (λ c, c ≠ card) l = l) as Hid.
  { induction l as [|x l IH]; [done|]. intros Hx.
    rewrite filter_cons_True by set_solver. f_equal. apply IH. set_solver. }
  by rewrite !Hid, <-app_assoc.
Qed.

(** C7: with the room present, the card in the player's hand and a non-empty
    deck, discard-card is to remove exactly one instance of the card. On a
    hand holding the card twice (catalog [doubled]) the handler removes both
    copies and draws a single replacement: Alice's seven cards become six. *)
Theorem discard_card_drops_every_copy :
  hand_of "R1" "Alice" (alone doubled)
    = Some ["A"; "A"; "c3"; "c4"; "c5"; "c6"; "c7"]
  ∧ deck (room_of "R1" (alone doubled)) = ["c8"; "c9"]
  ∧ hand_of "R1" "Alice" (discard_card "s1" "R1" "Alice" "A" (alone doubled)).1
    = Some ["c3"; "c4"; "c5"; "c6"; "c7"; "c8"]
  ∧ deck (room_of "R1" (discard_card "s1" "R1" "Alice" "A" (alone doubled)).1)
    = ["c9"]
  ∧ (discard_card "s1" "R1" "Alice" "A" (alone doubled)).2
    = [io_to "s1" (deal_hand (Some ["c3"; "c4"; "c5"; "c6"; "c7"; "c8"]))].
Proof. vm_compute. done. Qed.

(** C8 as worded fails: with the deck empty, discard-card does not leave the
    hand unchanged. After the only join on the seven-card catalog the deck is
    empty, and discarding ["c1"] takes the hand from seven cards to six. *)
Lemma discard_on_empty_deck_shrinks_hand :
  deck (room_of "R1" (alone seven)) = []
  ∧ hand_of "R1" "Alice" (alone seven) = Some seven
  ∧ "c1" ∈ seven
  ∧ hand_of "R1" "Alice" (discard_card "s1" "R1" "Alice" "c1" (alone seven)).1
    = Some ["c2"; "c3"; "c4"; "c5"; "c6"; "c7"]
  ∧ hand_of "R1" "Alice" (discard_card "s1" "R1" "Alice" "c1" (alone seven)).1
    ≠ hand_of "R1" "Alice" (alone seven).
Proof. vm_compute. split_and!; try done. set_solver. Qed.

(** C8, amended: with the room present, the card in the player's hand and the
    deck empty, discard-card still takes the card out of the hand: the hand
    gets strictly shorter, what remains is the old hand in order with only
    copies of that card missing, nothing is drawn, the deck stays empty, the
    rest of the room is as it was, and no message is sent. *)
Theorem discard_on_empty_deck sid rid name card st room hand :
  rooms st !! rid = Some room → hands room !! name = Some hand →
  card ∈ hand → deck room = [] →
  ∃ hand',
    discard_card sid rid name card st
    = ({| rooms := <[rid := set_hands_deck (<[name := hand']> (hands room)) [] room]>
                     (rooms st);
          sockets := sockets st |}, [])
    ∧ hand_of rid name (discard_card sid rid name card st).1 = Some hand'
    ∧ (length hand' < length hand)%nat
    ∧ hand' `sublist_of` hand
    ∧ filter (λ c, c ≠ card) hand' = filter (λ c, c ≠ card) hand.
Proof.
  intros Hroom Hhand Hin Hdeck. exists (filter (λ c, c ≠ card) hand).
  assert (discard_card sid rid name card st
    = ({| rooms :=
            <[rid := set_hands_deck
                       (<[name := filter (λ c, c ≠ card) hand]> (hands room))
                       [] room]> (rooms st);
          sockets := sockets st |}, [])) as Heq.
  { unfold discard_card. rewrite Hroom, Hhand, Hdeck.
    by rewrite bool_decide_eq_true_2. }
  rewrite Heq. split_and!; [done| | | |].
  - unfold hand_of. simpl. rewrite lookup_insert_eq. simpl.
    by rewrite lookup_insert_eq.
  - apply (length_filter_lt _ _ card); [done|tauto].
  - apply sublist_filter.
  - rewrite list_filter_filter. apply list_filter_iff. tauto.
Qed.

Lemma discard_on_empty_deck_witness :
  ∃ hand',
    discard_card "s1" "R1" "Alice" "c1" (alone seven)
    = ({| rooms :=
            <["R1" := set_hands_deck
                        (<["Alice" := hand']> (hands (room_of "R1" (alone seven))))
                        [] (room_of "R1" (alone seven))]> (rooms (alone seven));
          sockets := sockets (alone seven) |}, [])
    ∧ hand_of "R1" "Alice" (discard_card "s1" "R1" "Alice" "c1" (alone seven)).1
      = Some hand'
    ∧ (length hand' < length seven)%nat
    ∧ hand' `sublist_of` seven
    ∧ filter (λ c, c ≠ "c1") hand' = filter (λ c, c ≠ "c1") seven.
Proof.
  apply (discard_on_empty_deck "s1" "R1" "Alice" "c1" (alone seven)
           (room_of "R1" (alone seven)) seven).
  - vm_compute. reflexivity.
  - vm_compute. reflexivity.
  - unfold seven. set_solver.
  - vm_compute. reflexivity.
Defined.

(** ** vote *)

(** The all-voted test compares lengths: it fires exactly when the vote just
    pushed makes [votedPlayers] as long as the roster. *)
Lemma vote_all_voted_by_count sid rid name target st room :
  rooms st !! rid = Some room →
  (vote sid rid name target st).2
  = if decide (length (votedPlayers room) + 1 = length (players room))
    then [io_to rid all_voted] else [].
Proof.
  intros Hroom. unfold vote. rewrite Hroom. simpl.
  rewrite length_app. simpl. done.
Qed.

(** C1: the all-voted broadcast must not fire before N distinct players have
    voted. With roster Alice, Bob, two votes cast by Alice alone make the
    handler broadcast all-voted although one distinct player has voted. *)
Theorem duplicate_vote_fires_all_voted :
  let evs := two_joined ++
    [Vote "s1" "R1" "Alice" "Bob"; Vote "s1" "R1" "Alice" "Bob"] in
  players (room_of "R1" (run startup evs)) = ["Alice"; "Bob"]
  ∧ votedPlayers (room_of "R1" (run startup evs)) = ["Alice"; "Alice"]
  ∧ distinct (votedPlayers (room_of "R1" (run startup evs))) = 1
  ∧ last_outputs startup evs = [io_to "R1" all_voted].
Proof. vm_compute. done. Qed.

(** ** The ready barrier advances a turn at most once *)

Lemma room_turn_step st ev rid t :
  room_turn rid st = Some t →
  room_turn rid (step st ev).1
  = Some (if emits_next_turn rid (step st ev).2 then t + 1 else t).
Proof.
  unfold room_turn. intros Ht. pose proof (step_turn st ev rid) as Hstep.
  destruct (rooms st !! rid) as [room|]; [|done].
  destruct Hstep as (room' & -> & Hturn). injection Ht as <-.
  simpl. by rewrite Hturn.
Qed.

(** Once a room is past turn [T] the block never runs at [T] again. *)
Lemma advancements_past rid T evs : ∀ st t,
  room_turn rid st = Some t → T < t → advancements rid T st evs = 0.
Proof.
  induction evs as [|ev evs IH]; intros st t Ht Hlt; [done|].
  cbn [advancements]. rewrite Ht.
  rewrite bool_decide_eq_false_2 by (intros [= ->]; lia). simpl.
  apply (IH _ _ (room_turn_step st ev rid t Ht)).
  destruct (emits_next_turn _ _); lia.
Qed.

(** C2: for every room and every turn number T, over any sequence of events
    from any state the turn-advancement block runs at most once while the
    room's turn is T; when the room's [_turnProcessed] equals its turn the
    block is skipped whatever the ready count, and when the block runs it
    records the turn in [_turnProcessed] and moves the turn on. *)
Theorem advance_at_most_once_per_turn :
  (∀ rid T evs st, (advancements rid T st evs ≤ 1)%nat)
  ∧ (∀ sid rid name st room,
       rooms st !! rid = Some room →
       _turnProcessed room = Some (turn room) →
       emits_next_turn rid (ready_for_next_turn sid rid name st).2 = false
       ∧ room_turn rid (ready_for_next_turn sid rid name st).1
         = Some (turn room))
  ∧ (∀ sid rid name st room,
       rooms st !! rid = Some room →
       emits_next_turn rid (ready_for_next_turn sid rid name st).2 = true →
       _turnProcessed room ≠ Some (turn room)
       ∧ (_turnProcessed <$> rooms (ready_for_next_turn sid rid name st).1 !! rid)
         = Some (Some (turn room))
       ∧ room_turn rid (ready_for_next_turn sid rid name st).1
         = Some (turn room + 1)).
Proof.
  split_and!.
  - intros rid T evs. induction evs as [|ev evs IH]; intros st; [simpl; lia|].
    cbn [advancements].
    destruct (bool_decide (room_turn rid st = Some T)) eqn:Hat;
      [|simpl; apply IH].
    apply bool_decide_eq_true_1 in Hat.
    pose proof (room_turn_step st ev rid T Hat) as Hnext.
    destruct (emits_next_turn rid (step st ev).2); [|simpl; apply IH].
    rewrite (advancements_past rid T evs _ (T + 1) Hnext); simpl; lia.
  - intros sid rid name st room Hroom Hguard.
    pose proof (mark_ready_frame rid name room) as (_ & _ & _ & Ht1 & _).
    destruct (ready_for_next_turn_cases sid rid name st room Hroom)
      as [(_ & Hne & _)|(_ & He & Hrooms)]; [done|].
    split; [done|]. unfold room_turn.
    rewrite Hrooms, lookup_insert_eq. simpl in *. congruence.
  - intros sid rid name st room Hroom Hemit.
    pose proof (mark_ready_frame rid name room) as (_ & _ & _ & Ht1 & _).
    pose proof (advance_turn_room rid (sockets st) (mark_ready rid name room).1)
      as (_ & _ & _ & _ & _ & Ht2 & Hg2).
    destruct (ready_for_next_turn_cases sid rid name st room Hroom)
      as [(_ & Hne & _ & Hrooms)|(_ & He & _)]; [|congruence].
    split; [done|]. unfold room_turn.
    rewrite Hrooms, lookup_insert_eq. simpl in *. split; congruence.
Qed.

Lemma advance_at_most_once_per_turn_witness :
  (advancements "R1" 1 startup
     (two_joined ++
       [ReadyForNextTurn "s1" "R1" "Alice"; ReadyForNextTurn "s2" "R1" "Bob";
        ReadyForNextTurn "s2" "R1" "Bob"; ReadyForNextTurn "s1" "R1" "Alice"])
   ≤ 1)%nat
  ∧ emits_next_turn "R1" (ready_for_next_turn "s1" "R1" "Alice" guarded).2 = false
  ∧ room_turn "R1" (ready_for_next_turn "s1" "R1" "Alice" guarded).1
    = Some (turn (room_of "R1" guarded)).
Proof.
  split.
  - apply (proj1 advance_at_most_once_per_turn).
  - apply (proj1 (proj2 advance_at_most_once_per_turn)
             "s1" "R1" "Alice" guarded (room_of "R1" guarded)).
    + vm_compute. reflexivity.
    + vm_compute. reflexivity.
Defined.

(** Ready signals repeated after the barrier has fired: the first round ends
    turn 1 once, and the next full round ends turn 2. *)
Example barrier_rounds :
  let evs := two_joined ++
    [ReadyForNextTurn "s1" "R1" "Alice"; ReadyForNextTurn "s2" "R1" "Bob";
     ReadyForNextTurn "s2" "R1" "Bob"; ReadyForNextTurn "s1" "R1" "Alice"] in
  advancements "R1" 1 startup evs = 1
  ∧ advancements "R1" 2 startup evs = 1
  ∧ room_turn "R1" (run startup evs) = Some 3.
Proof. vm_compute. done. Qed.

(** ** join-room is idempotent by player name *)

(** What [removePlayerFromRoom] leaves of a player. *)
Lemma remove_player_clean name room :
  let room' := remove_player name room in
  (name ∉ players room') ∧ votes room' !! name = None
  ∧ (name ∉ votedPlayers room') ∧ (name ∉ readyPlayers room')
  ∧ hands room' !! name = None ∧ submissions_of name room' = [].
Proof.
  simpl. rewrite !list_elem_of_filter, !lookup_delete_eq.
  split_and!; try tauto; try done.
  unfold submissions_of. simpl.
  apply (filter_complement_none (λ t, Submission.playerName t = name)).
Qed.

(** After one join, whatever the state before, the name sits once in the
    roster with a hand and no trace in the per-turn state. *)
Lemma join_room_seat sid rid name shuffled st :
  ∃ room hand,
    rooms (join_room sid rid name shuffled st).1 !! rid = Some room
    ∧ filter (λ n, n = name) (players room) = [name]
    ∧ hands room !! name = Some hand
    ∧ (name ∉ votedPlayers room) ∧ (name ∉ readyPlayers room)
    ∧ votes room !! name = None ∧ submissions_of name room = [].
Proof.
  rewrite join_room_eq. cbn [fst rooms]. rewrite lookup_insert_eq.
  set (room0 := default (createNewRoom shuffled) (rooms st !! rid)).
  pose proof (remove_player_clean name room0) as (_ & Hv & Hvp & Hrp & _ & Hs).
  do 2 eexists. split; [done|]. cbn [players hands votedPlayers readyPlayers votes].
  split_and!; try done.
  - cbn [remove_player players]. rewrite filter_app.
    rewrite (filter_complement_none (λ n, n = name)).
    by rewrite filter_cons_True.
  - apply lookup_insert_eq.
Qed.

(** C4: join is to be idempotent for every room and every player name, with
    the name once in the roster. For the room id ["constructor"] no room
    exists, yet [rooms[roomId]] answers with the inherited function: the
    creation test [if (!rooms[roomId])] fails, so join-room creates no room,
    and [removePlayerFromRoom] passes its guard without a room (its access
    to [room.players] throws a TypeError), so that no roster comes to hold
    the name. *)
Theorem join_creates_no_room_for_inherited_id :
  rooms startup !! "constructor" = None
  ∧ join_creates (rooms startup) "constructor" = false
  ∧ room_guard (rooms startup) "constructor" = enters_without_room
  ∧ join_creates (rooms startup) "R1" = true.
Proof. vm_compute. done. Qed.

(** X25: in a state reached from startup by events whose room ids, player
    names and vote targets name no property of [Object.prototype], and for a
    room id and a player name of that kind, join is idempotent by player
    name. The room is
    created exactly when none exists; after any positive number of join
    calls under one name the roster holds the name exactly once and the
    hands mapping holds a hand for it, with nothing of the name left in the
    voted and ready lists, the vote tallies or the submissions; and each join
    first removes the old occupant through [removePlayerFromRoom], which
    clears the name from roster, tallies, ready and voted lists, hands and
    submissions (reads of the tally and of the hand under the name give
    [undefined]), and only then adds the name and the new hand. *)
Theorem join_idempotent_by_name evs rid name calls :
  Forall plain_event evs → plain rid → plain name → calls ≠ [] →
  let st := run startup evs in
  join_creates (rooms st) rid = bool_decide (rooms st !! rid = None)
  ∧ (∃ room hand,
       rooms (rejoin rid name calls st) !! rid = Some room
       ∧ filter (λ n, n = name) (players room) = [name]
       ∧ hands room !! name = Some hand
       ∧ (name ∉ votedPlayers room) ∧ (name ∉ readyPlayers room)
       ∧ votes room !! name = None ∧ submissions_of name room = [])
  ∧ (∀ sid shuffled room0,
       rooms st !! rid = Some room0 →
       ∃ removed joined,
         removePlayerFromRoom rid name (rooms st) !! rid = Some removed
         ∧ (name ∉ players removed) ∧ votes removed !! name = None
         ∧ (name ∉ votedPlayers removed) ∧ (name ∉ readyPlayers removed)
         ∧ hands removed !! name = None ∧ submissions_of name removed = []
         ∧ read (votes removed) name = undefined
         ∧ read (hands removed) name = undefined
         ∧ rooms (join_room sid rid name shuffled st).1 !! rid = Some joined
         ∧ players joined = players removed ++ [name]
         ∧ votes joined = votes removed
         ∧ votedPlayers joined = votedPlayers removed
         ∧ readyPlayers joined = readyPlayers removed
         ∧ submissions joined = submissions removed
         ∧ hands joined = <[name := take 7 (deck removed)]> (hands removed)).
Proof.
  intros _ Hrid Hname Hcalls st. split_and!.
  - unfold join_creates. rewrite read_plain by done.
    by destruct (rooms st !! rid).
  - destruct calls as [|c calls _] using rev_ind; [done|].
    unfold rejoin. rewrite fold_left_app. cbn [fold_left].
    apply join_room_seat.
  - intros sid shuffled room0 Hroom0.
    pose proof (remove_player_clean name room0) as (Hp & Hv & Hvp & Hrp & Hh & Hs).
    exists (remove_player name room0). eexists.
    unfold removePlayerFromRoom. rewrite Hroom0, lookup_insert_eq.
    rewrite join_room_eq. cbn [fst rooms]. rewrite lookup_insert_eq, Hroom0.
    cbn zeta in *. rewrite !read_plain, Hv, Hh by done.
    split_and!; done.
Qed.

Lemma join_idempotent_by_name_witness :
  join_creates (rooms (run startup two_joined)) "R1"
    = bool_decide (rooms (run startup two_joined) !! "R1" = None)
  ∧ (∃ room hand,
       rooms (rejoin "R1" "Alice"
                [("s1", sixteen); ("s2", sixteen); ("s1", sixteen)]
                (run startup two_joined))
         !! "R1" = Some room
       ∧ filter (λ n, n = "Alice") (players room) = ["Alice"]
       ∧ hands room !! "Alice" = Some hand
       ∧ ("Alice" ∉ votedPlayers room) ∧ ("Alice" ∉ readyPlayers room)
       ∧ votes room !! "Alice" = None ∧ submissions_of "Alice" room = []).
Proof.
  destruct (join_idempotent_by_name two_joined "R1" "Alice"
              [("s1", sixteen); ("s2", sixteen); ("s1", sixteen)])
    as (Hcreate & Hseat & _).
  - repeat constructor.
  - vm_compute. reflexivity.
  - vm_compute. reflexivity.
  - discriminate.
  - split; [exact Hcreate|exact Hseat].
Defined.

(** A rejoin deals a new hand from the deck; the hand held before is not
    returned to it. *)
Example rejoin_deals_again :
  let st := rejoin "R1" "Alice" [("s1", sixteen); ("s2", sixteen)] startup in
  players (room_of "R1" st) = ["Alice"]
  ∧ hand_of "R1" "Alice" st = Some ["c8"; "c9"; "d1"; "d2"; "d3"; "d4"; "d5"]
  ∧ deck (room_of "R1" st) = ["d6"; "d7"].
Proof. vm_compute. done. Qed.

(** ** Cards only ever leave a room *)

Section Cards.
Implicit Types (hs : gmap string (list Card)) (dk : list Card).

Lemma hand_cards_empty : hand_cards ∅ = [].
Proof. unfold hand_cards. by rewrite map_to_list_empty. Qed.

Lemma hand_cards_insert_fresh hs k (h : list Card) :
  hs !! k = None → hand_cards (<[k := h]> hs) ≡ₚ h ++ hand_cards hs.
Proof.
  intros Hk. unfold hand_cards. by rewrite (map_to_list_insert hs k h Hk).
Qed.

Lemma hand_cards_delete hs k (h : list Card) :
  hs !! k = Some h → hand_cards hs ≡ₚ h ++ hand_cards (delete k hs).
Proof.
  intros Hk. unfold hand_cards. by rewrite <-(map_to_list_delete hs k h Hk).
Qed.

Lemma hand_cards_insert hs k (h : list Card) :
  hand_cards (<[k := h]> hs) ≡ₚ h ++ hand_cards (delete k hs).
Proof.
  rewrite <-insert_delete_eq.
  apply hand_cards_insert_fresh, lookup_delete_eq.
Qed.

Lemma hand_cards_delete_sub hs k : hand_cards (delete k hs) ⊆+ hand_cards hs.
Proof.
  destruct (hs !! k) as [h|] eqn:Hk.
  - rewrite (hand_cards_delete hs k h Hk). by apply submseteq_inserts_l.
  - by rewrite delete_id.
Qed.

(** The one move every handler makes on hands and deck: a player's hand is
    replaced by part of what it held plus the first [n] cards of the deck. *)
Lemma hand_swap_sub hs dk k (kept : list Card) n :
  kept ⊆+ default [] (hs !! k) →
  hand_cards (<[k := kept ++ take n dk]> hs) ++ drop n dk
  ⊆+ hand_cards hs ++ dk.
Proof.
  intros Hkept. rewrite hand_cards_insert.
  rewrite <-(take_drop n dk) at 3.
  trans (kept ++ hand_cards (delete k hs) ++ take n dk ++ drop n dk).
  { apply Permutation_submseteq. rewrite <-!app_assoc.
    f_equiv. rewrite !app_assoc. f_equiv. apply Permutation_app_comm. }
  rewrite !app_assoc. do 2 apply submseteq_skips_r.
  destruct (hs !! k) as [h|] eqn:Hk; simpl in Hkept.
  - rewrite (hand_cards_delete hs k h Hk). by apply submseteq_skips_r.
  - apply submseteq_nil_r in Hkept as ->. by rewrite delete_id.
Qed.

Lemma filter_sub (P : Card → Prop) `{!∀ c, Decision (P c)} (l : list Card) :
  filter P l ⊆+ l.
Proof. apply sublist_submseteq, sublist_filter. Qed.

Lemma replenish_sub rid ss (subs : list Submission.t) : ∀ hs dk outs,
  let res := fold_left (replenish rid ss) subs (hs, dk, outs) in
  hand_cards res.1.1 ++ res.1.2 ⊆+ hand_cards hs ++ dk.
Proof.
  induction subs as [|t subs IH]; intros hs dk outs; [done|].
  cbn [fold_left]. unfold replenish at 2 3. cbn [drawCards].
  etrans; [apply IH|]. apply hand_swap_sub, filter_sub.
Qed.

Lemma advance_turn_cards rid ss room :
  room_cards (advance_turn rid ss room).1 ⊆+ room_cards room.
Proof.
  unfold advance_turn, room_cards.
  pose proof (replenish_sub rid ss (submissions room) (hands room)
                (deck room) []) as Hsub.
  by destruct (fold_left _ _ _) as [[hs dk] outs].
Qed.

Lemma remove_player_cards name room :
  room_cards (remove_player name room) ⊆+ room_cards room.
Proof. apply submseteq_skips_r, hand_cards_delete_sub. Qed.
End Cards.

Section StepCards.
Implicit Types (st : Server) (rs : gmap string Room) (room : Room).

Lemma cards_kept rs ev rid room' :
  rs !! rid = Some room' → cards_from rs ev rid room'.
Proof. intros Hroom. left. by exists room'. Qed.

Lemma cards_written rs ev rid rid' room0 new room' :
  rs !! rid' = Some room0 →
  room_cards new ⊆+ room_cards room0 →
  <[rid' := new]> rs !! rid = Some room' →
  cards_from rs ev rid room'.
Proof.
  intros Hroom0 Hsub. destruct (decide (rid' = rid)) as [->|Hne].
  - rewrite lookup_insert_eq. intros [= <-]. left. by exists room0.
  - rewrite lookup_insert_ne by done. apply cards_kept.
Qed.

Lemma set_hands_deck_cards hs dk room :
  room_cards (set_hands_deck hs dk room) = hand_cards hs ++ dk.
Proof. done. Qed.

Lemma join_room_cards sid rid name shuffled st room' :
  rooms (join_room sid rid name shuffled st).1 !! rid = Some room' →
  room_cards room'
  ⊆+ room_cards (default (createNewRoom shuffled) (rooms st !! rid)).
Proof.
  rewrite join_room_eq. cbn [fst rooms]. rewrite lookup_insert_eq.
  intros [= <-]. etrans; [|apply (remove_player_cards name)].
  unfold room_cards at 1. cbn [hands deck].
  apply (hand_swap_sub _ _ name [] 7), submseteq_nil_l.
Qed.

(** No handler adds a card to a room: after any event the cards of a room
    are among those it held before, or among the shuffle it was created
    with. *)
Lemma step_cards st ev rid room' :
  rooms (step st ev).1 !! rid = Some room' →
  cards_from (rooms st) ev rid room'.
Proof.
  destruct ev as [sid|sid rid' name sh|sid rid' name title used
                 |sid rid' name target|sid rid' name card|sid rid' name
                 |sid rid' name|sid]; cbn [step].
  - apply cards_kept.
  - destruct (decide (rid' = rid)) as [->|Hne].
    + intros Hsub%join_room_cards.
      destruct (rooms st !! rid) as [room|] eqn:Hroom.
      * left. by exists room.
      * right. split; [done|]. exists sid, name, sh. split; [done|].
        by rewrite <-(app_nil_l sh).
    + rewrite join_room_eq. cbn [fst rooms].
      rewrite lookup_insert_ne by done. apply cards_kept.
  - unfold submit_title.
    destruct (rooms st !! rid') as [room0|] eqn:Hroom0;
      [destruct (negb (valid_usedCards used))|];
      try apply cards_kept.
    by apply (cards_written _ _ _ _ room0).
  - unfold vote.
    destruct (rooms st !! rid') as [room0|] eqn:Hroom0;
      [|apply cards_kept].
    by apply (cards_written _ _ _ _ room0).
  - unfold discard_card.
    destruct (rooms st !! rid') as [room0|] eqn:Hroom0;
      [|apply cards_kept].
    destruct (hands room0 !! name) as [hand|] eqn:Hhand; [|apply cards_kept].
    destruct (negb _); [apply cards_kept|].
    destruct (deck room0) as [|front rest] eqn:Hdeck;
      apply (cards_written _ _ _ _ room0); cbn [fst rooms]; try done;
      rewrite set_hands_deck_cards; unfold room_cards; rewrite Hdeck.
    + rewrite <-(app_nil_r (filter _ hand)).
      apply (hand_swap_sub (hands room0) [] name _ 0).
      rewrite Hhand. apply filter_sub.
    + apply (hand_swap_sub (hands room0) (front :: rest) name _ 1).
      rewrite Hhand. apply filter_sub.
  - unfold request_hand.
    destruct (rooms st !! rid') as [room0|]; [|apply cards_kept].
    destruct (hands room0 !! name); apply cards_kept.
  - destruct (decide (rid = rid')) as [->|Hne].
    + destruct (rooms st !! rid') as [room0|] eqn:Hroom0.
      * pose proof (mark_ready_frame rid' name room0)
          as (_ & _ & _ & _ & _ & Hd & Hh & _).
        assert (room_cards (mark_ready rid' name room0).1 = room_cards room0)
          as Hsame by (unfold room_cards; simpl in *; congruence).
        destruct (ready_for_next_turn_cases sid rid' name st room0 Hroom0)
          as [(_ & _ & _ & ->)|(_ & _ & ->)];
          apply (cards_written _ _ _ _ room0); try done.
        -- rewrite <-Hsame. apply advance_turn_cards.
        -- by rewrite Hsame.
      * unfold ready_for_next_turn. rewrite Hroom0. apply cards_kept.
    + destruct (ready_for_next_turn_other rid sid rid' name st Hne)
        as [_ ->].
      apply cards_kept.
  - unfold disconnect.
    destruct (socket_data sid (sockets st)) as [d|]; [|apply cards_kept].
    destruct (truthy (roomId d) && truthy (playerName d));
      [|apply cards_kept].
    cbn [fst rooms]. unfold removePlayerFromRoom.
    destruct (rooms st !! roomId d) as [room0|] eqn:Hroom0;
      [|apply cards_kept].
    apply (cards_written _ _ _ _ room0); [done|].
    apply remove_player_cards.
Qed.
End StepCards.

Lemma run_snoc st evs ev : run st (evs ++ [ev]) = (step (run st evs) ev).1.
Proof. unfold run. by rewrite fold_left_app. Qed.

(** C6 as worded fails: the size of hands plus deck is not the catalog size
    less the cards lost to deck exhaustion. After one join and one discard
    with cards still in the deck, nothing was lost to exhaustion and the room
    holds eight of the nine cards. *)
Lemma cards_not_conserved :
  Forall (shuffled_from nine) one_discard
  ∧ lost_to_exhaustion "R1" startup one_discard = 0
  ∧ length (room_cards (room_of "R1" (run startup one_discard))) = 8
  ∧ ¬ conserved nine one_discard.
Proof.
  split_and!.
  - repeat constructor.
  - vm_compute. reflexivity.
  - vm_compute. reflexivity.
  - intros Hc.
    destruct (Hc "R1" (room_of "R1" (run startup one_discard))) as [_ Hlen].
    + vm_compute. reflexivity.
    + vm_compute in Hlen. discriminate.
Qed.

(** C6, amended: in every room reached from startup, each room having been
    created with a shuffle of the catalog, after every operation the cards of
    all hands together with the deck form a sub-multiset of the catalog (no
    card occurs more often than the catalog lists it), so there are at most
    as many as in the catalog; and no operation adds a card to them. *)
Theorem cards_within_catalog allCards evs rid room :
  Forall (shuffled_from allCards) evs →
  rooms (run startup evs) !! rid = Some room →
  room_cards room ⊆+ allCards
  ∧ (length (room_cards room) ≤ length allCards)%nat
  ∧ (∀ ev room',
       rooms (step (run startup evs) ev).1 !! rid = Some room' →
       room_cards room' ⊆+ room_cards room).
Proof.
  intros Hsh Hroom.
  assert (room_cards room ⊆+ allCards) as Hsub.
  { revert room Hroom.
    induction evs as [|ev evs IH] using rev_ind; intros room; [done|].
    apply Forall_app in Hsh as [Hevs [Hev _]%Forall_cons].
    rewrite run_snoc.
    intros [(room0 & Hroom0 & Hsub)|(_ & sid & name & sh & -> & Hsub)]%step_cards.
    - etrans; [exact Hsub|]. by apply IH.
    - simpl in Hev. by rewrite <-Hev. }
  split_and!; [done|by apply submseteq_length|].
  intros ev room' [(room0 & Hroom0 & Hstep)|(Hnone & _)]%step_cards;
    congruence.
Qed.

Lemma cards_within_catalog_witness :
  let room := room_of "R1" (run startup full_round) in
  room_cards room ⊆+ sixteen
  ∧ (length (room_cards room) ≤ length sixteen)%nat
  ∧ (∀ ev room',
       rooms (step (run startup full_round) ev).1 !! "R1" = Some room' →
       room_cards room' ⊆+ room_cards room).
Proof.
  apply (cards_within_catalog sixteen full_round "R1").
  - repeat constructor; apply reverse_Permutation.
  - vm_compute. reflexivity.
Defined.

(** The round of [full_round] leaves thirteen of the sixteen cards: the two
    used cards and the discarded one are gone. *)
Example full_round_cards :
  room_turn "R1" (run startup full_round) = Some 2
  ∧ length (room_cards (room_of "R1" (run startup full_round))) = 13.
Proof. vm_compute. done. Qed.

(** * Further properties of the handlers *)

(** ** Every event writes at most one room *)

Section Moves.
Implicit Types (st : Server) (room : Room) (rid : string).

(** An event leaves the rooms alone or writes back the one room it is about,
    changed by one of the moves of [room_move]; a room that did not exist
    starts from [createNewRoom]. *)
Lemma step_writes st ev :
  rooms (step st ev).1 = rooms st
  ∨ ∃ rid room room',
      event_room st ev = Some rid
      ∧ (rooms st !! rid = Some room
         ∨ (rooms st !! rid = None ∧ ∃ shuffled, room = createNewRoom shuffled))
      ∧ room_move (sockets st) rid room room'
      ∧ rooms (step st ev).1 = <[rid := room']> (rooms st).
Proof.
  destruct ev as [sid|sid rid name sh|sid rid name title used
                 |sid rid name target|sid rid name card|sid rid name
                 |sid rid name|sid]; cbn [step event_room].
  - by left.
  - right. rewrite join_room_eq. cbn [fst rooms].
    exists rid, (default (createNewRoom sh) (rooms st !! rid)). eexists.
    split_and!; [done| |apply (move_join _ _ _ name)|done].
    destruct (rooms st !! rid); [by left|right; eauto].
  - unfold submit_title.
    destruct (rooms st !! rid) as [room|] eqn:Hroom; [|by left].
    destruct (valid_usedCards used) eqn:Hvalid; [|by left].
    right. exists rid, room. eexists.
    split_and!; [done|by left|by apply (move_submit _ _ _ name title used)|done].
  - unfold vote.
    destruct (rooms st !! rid) as [room|] eqn:Hroom; [|by left].
    right. exists rid, room. eexists.
    split_and!; [done|by left|apply (move_vote _ _ _ name target)|done].
  - unfold discard_card.
    destruct (rooms st !! rid) as [room|] eqn:Hroom; [|by left].
    destruct (hands room !! name) as [hand|] eqn:Hhand; [|by left].
    case_bool_decide as Hin; [|by left]. cbn [negb].
    right. exists rid, room, (swap_card name card hand room).
    split_and!; [done|by left|by apply move_discard|].
    unfold swap_card.
    destruct (deck room) as [|front rest]; cbn [fst rooms take drop];
      by rewrite ?app_nil_r.
  - left. unfold request_hand.
    destruct (rooms st !! rid) as [room|]; [|done].
    by destruct (hands room !! name).
  - destruct (rooms st !! rid) as [room|] eqn:Hroom.
    + right. exists rid, room.
      destruct (ready_for_next_turn_cases sid rid name st room Hroom)
        as [(Hbar & Hguard & _ & Hrooms)|(_ & _ & Hrooms)]; eexists;
        (split_and!; [done|by left| |exact Hrooms]).
      * by apply move_advance.
      * apply move_ready.
    + left. unfold ready_for_next_turn. by rewrite Hroom.
  - unfold disconnect.
    destruct (socket_data sid (sockets st)) as [d|]; [|by left].
    destruct (truthy (roomId d) && truthy (playerName d)); [|by left].
    cbn [fst rooms]. unfold removePlayerFromRoom.
    destruct (rooms st !! roomId d) as [room|] eqn:Hroom; [|by left].
    right. exists (roomId d), room. eexists.
    split_and!; [done|by left|apply (move_leave _ _ _ (playerName d))|done].
Qed.

(** Whatever holds of a new room and is kept by every move holds of every
    room reached from startup. *)
Lemma reachable_rooms (P : Room → Prop) :
  (∀ shuffled, P (createNewRoom shuffled)) →
  (∀ ss rid room room', P room → room_move ss rid room room' → P room') →
  ∀ evs rid room, rooms (run startup evs) !! rid = Some room → P room.
Proof.
  intros Hnew Hmove evs.
  induction evs as [|ev evs IH] using rev_ind; intros rid room; [done|].
  rewrite run_snoc.
  destruct (step_writes (run startup evs) ev)
    as [->|(rid' & room0 & room' & _ & Horigin & Hmv & ->)]; [apply IH|].
  destruct (decide (rid' = rid)) as [->|Hne].
  - rewrite lookup_insert_eq. intros [= <-].
    apply (λ H, Hmove _ _ room0 room' H Hmv).
    destruct Horigin as [Hroom0|(_ & sh & ->)]; [by eapply IH|apply Hnew].
  - rewrite lookup_insert_ne by done. apply IH.
Qed.
End Moves.

(** ** Facts on the pieces of the moves *)

Section Pieces.
Implicit Types (room : Room) (hs : gmap string (list Card)) (dk : list Card).

Lemma or_zero_default (o : option nat) : or_zero o = default 0 o.
Proof. by destruct o as [[|n]|]. Qed.

Lemma count_vote_names target (subs : list Submission.t) :
  Submission.playerName <$> count_vote target subs
  = Submission.playerName <$> subs.
Proof.
  induction subs as [|t subs IH]; [done|].
  cbn [count_vote]. case_decide; [done|]. rewrite !fmap_cons. by f_equal.
Qed.

(** An entry after [count_vote] is an entry from before, or the first entry
    of the target with one more vote. *)
Lemma count_vote_elem target (subs : list Submission.t) t' :
  t' ∈ count_vote target subs →
  t' ∈ subs
  ∨ ∃ t, t ∈ subs ∧ Submission.playerName t = target
      ∧ t' = Submission.set_votes (Submission.votes t + 1) t.
Proof.
  induction subs as [|t subs IH]; [by intros ?%elem_of_nil|].
  cbn [count_vote]. case_decide as Ht.
  - rewrite or_zero_default. cbn [default].
    intros [->|Hin]%elem_of_cons.
    + right. exists t. split_and!; [left|done|done].
    + left. by right.
  - intros [->|Hin]%elem_of_cons; [left; left|].
    destruct (IH Hin) as [?|(t0 & ? & ? & ?)]; [left; by right|].
    right. exists t0. split_and!; [by right|done|done].
Qed.

Lemma filter_names_NoDup name (subs : list Submission.t) :
  NoDup (Submission.playerName <$> subs) →
  NoDup (Submission.playerName
           <$> filter (λ t, Submission.playerName t ≠ name) subs).
Proof.
  intros Hnd. eapply sublist_NoDup; [exact Hnd|].
  apply fmap_sublist, sublist_filter.
Qed.

(** The hands and the deck the block leaves are those the replenish loop
    ends with. *)
Lemma advance_turn_hands rid ss room :
  let res := fold_left (replenish rid ss) (submissions room)
               (hands room, deck room, []) in
  hands (advance_turn rid ss room).1 = res.1.1
  ∧ deck (advance_turn rid ss room).1 = res.1.2.
Proof.
  unfold advance_turn. by destruct (fold_left _ _ _) as [[hs dk] outs].
Qed.

(** One pass of the loop, spelled out. *)
Lemma replenish_snoc rid ss (subs : list Submission.t) t hs dk outs :
  let before := fold_left (replenish rid ss) subs (hs, dk, outs) in
  let kept :=
    filter (λ c, c ∉ match Submission.usedCards t with
                     | JsArray cards => cards
                     | NotArray => []
                     end)
      (default [] (before.1.1 !! Submission.playerName t)) in
  let n := Z.to_nat (7 - Z.of_nat (length kept)) in
  (fold_left (replenish rid ss) (subs ++ [t]) (hs, dk, outs)).1
  = (<[Submission.playerName t := kept ++ take n before.1.2]> before.1.1,
     drop n before.1.2).
Proof.
  rewrite fold_left_app. cbn [fold_left].
  by destruct (fold_left _ subs _) as [[hs1 dk1] outs1].
Qed.

(** Hands through the loop: entries stay, none grows past seven cards, and
    the hands of those without a submission are not touched. *)
Lemma replenish_hands rid ss (subs : list Submission.t) hs dk outs :
  let res := fold_left (replenish rid ss) subs (hs, dk, outs) in
  (∀ p, is_Some (hs !! p) → is_Some (res.1.1 !! p))
  ∧ ((∀ p h, hs !! p = Some h → (length h ≤ 7)%nat) →
     ∀ p h, res.1.1 !! p = Some h → (length h ≤ 7)%nat)
  ∧ (∀ p, p ∉ Submission.playerName <$> subs → res.1.1 !! p = hs !! p).
Proof.
  induction subs as [|t subs IH] using rev_ind; [done|].
  cbn zeta. rewrite replenish_snoc.
  destruct IH as (IHsome & IHlen & IHframe). cbn [fst snd].
  set (before := fold_left (replenish rid ss) subs (hs, dk, outs)) in *.
  set (name := Submission.playerName t).
  split_and!.
  - intros p Hp. destruct (decide (name = p)) as [->|Hne].
    + rewrite lookup_insert_eq. by eexists.
    + rewrite lookup_insert_ne by done. by apply IHsome.
  - intros Hle p h. destruct (decide (name = p)) as [->|Hne].
    + rewrite lookup_insert_eq. intros [= <-].
      assert (length (default [] (before.1.1 !! p)) ≤ 7)%nat as Hold.
      { destruct (before.1.1 !! p) as [h0|] eqn:Hp; cbn [default length]; [|lia].
        by apply (IHlen Hle p). }
      match goal with
      | |- context [filter ?P ?l] => pose proof (length_filter P l)
      end.
      rewrite length_app, length_take. lia.
    + rewrite lookup_insert_ne by done. by apply IHlen.
  - intros p Hp. rewrite fmap_app, elem_of_app in Hp.
    rewrite lookup_insert_ne; [apply IHframe; tauto|].
    intros <-. apply Hp. right. cbn. by left.
Qed.
End Pieces.

(** ** Invariants of the rooms reached from startup *)

(** X1: in every room reached from startup the roster lists no name twice,
    and neither does the ready list. *)
Theorem roster_without_duplicates evs rid room :
  rooms (run startup evs) !! rid = Some room →
  NoDup (players room) ∧ NoDup (readyPlayers room).
Proof.
  apply (reachable_rooms (λ room, NoDup (players room) ∧ NoDup (readyPlayers room)));
    clear; [intros; split; constructor|].
  intros ss rid room room' [Hp Hr] Hmv.
  destruct Hmv as [name|name title used Hvalid|name target
                  |name card hand Hhand Hin|name|name Hbar Hguard|name];
    try done.
  - split; [|by apply NoDup_filter].
    cbn [deal remove_player players]. apply NoDup_app.
    split_and!; [by apply NoDup_filter| |apply NoDup_singleton].
    intros x [Hx _]%list_elem_of_filter Heq%list_elem_of_singleton. done.
  - unfold mark_ready. case_bool_decide as Hin; [done|].
    split; [done|]. cbn [fst set_readyPlayers readyPlayers].
    apply NoDup_app. split_and!; [done| |apply NoDup_singleton].
    intros x Hx Heq%list_elem_of_singleton. by subst.
  - pose proof (advance_turn_room rid ss (mark_ready rid name room).1)
      as (Hp' & _ & _ & Hr' & _).
    pose proof (mark_ready_frame rid name room) as (Hp1 & _).
    cbn zeta in *. rewrite Hp', Hp1, Hr'. split; [done|constructor].
  - split; by apply NoDup_filter.
Qed.

Lemma roster_without_duplicates_witness :
  NoDup (players (room_of "R1" (run startup full_round)))
  ∧ NoDup (readyPlayers (room_of "R1" (run startup full_round))).
Proof.
  apply (roster_without_duplicates full_round "R1").
  vm_compute. reflexivity.
Defined.

(** No hand recorded in a room reached from startup holds more than seven
    cards. *)
Lemma reachable_hands_bounded evs rid room :
  rooms (run startup evs) !! rid = Some room →
  ∀ p h, hands room !! p = Some h → (length h ≤ 7)%nat.
Proof.
  apply (reachable_rooms
    (λ room, ∀ p h, hands room !! p = Some h → (length h ≤ 7)%nat));
    clear; [by intros sh p h ?|].
  intros ss rid room room' Hlen Hmv.
  destruct Hmv as [name|name title used Hvalid|name target
                  |name card hand Hhand Hin|name|name Hbar Hguard|name];
    try done.
  - cbn [deal remove_player hands deck].
    intros p h. destruct (decide (name = p)) as [->|Hne].
    + rewrite lookup_insert_eq. intros [= <-]. rewrite length_take. lia.
    + rewrite lookup_insert_ne by done.
      intros [_ Hp]%lookup_delete_Some. by eapply Hlen.
  - cbn [swap_card set_hands_deck hands].
    intros p h. destruct (decide (name = p)) as [->|Hne].
    + rewrite lookup_insert_eq. intros [= <-].
      assert (length (filter (λ c, c ≠ card) hand) < length hand)%nat as Hlt
        by (apply (length_filter_lt _ _ card); [done|tauto]).
      pose proof (Hlen _ _ Hhand).
      rewrite length_app, length_take. lia.
    + rewrite lookup_insert_ne by done. by apply Hlen.
  - pose proof (mark_ready_frame rid name room)
      as (_ & _ & _ & _ & _ & _ & -> & _).
    done.
  - pose proof (advance_turn_hands rid ss (mark_ready rid name room).1)
      as [Hh' _].
    pose proof (mark_ready_frame rid name room)
      as (_ & _ & _ & _ & _ & _ & Hh1 & _).
    cbn zeta in *. rewrite Hh', Hh1.
    match goal with
    | |- context [fold_left ?f ?subs (?hs, ?dk, ?outs)] =>
      pose proof (replenish_hands rid ss subs hs dk outs) as (_ & Hle & _)
    end.
    by apply Hle.
  - cbn [remove_player hands].
    intros p h [_ Hp]%lookup_delete_Some. by eapply Hlen.
Qed.

(** X2: in every room reached from startup each player of the roster has a
    hand recorded, and no recorded hand holds more than seven cards. *)
Theorem roster_hands_at_most_seven evs rid room :
  rooms (run startup evs) !! rid = Some room →
  (∀ p, p ∈ players room → is_Some (hands room !! p))
  ∧ (∀ p h, hands room !! p = Some h → (length h ≤ 7)%nat).
Proof.
  intros Hroom. split; [|by eapply reachable_hands_bounded].
  revert evs rid room Hroom.
  apply (reachable_rooms
    (λ room, ∀ p, p ∈ players room → is_Some (hands room !! p)));
    [by intros sh p ?%elem_of_nil|].
  intros ss rid room room' Hhas Hmv.
  destruct Hmv as [name|name title used Hvalid|name target
                  |name card hand Hhand Hin|name|name Hbar Hguard|name];
    try done.
  - cbn [deal remove_player players hands deck].
    intros p [[Hne Hp]%list_elem_of_filter|Heq%list_elem_of_singleton]%elem_of_app.
    + rewrite lookup_insert_ne, lookup_delete_ne by done. by apply Hhas.
    + subst. rewrite lookup_insert_eq. by eexists.
  - cbn [swap_card set_hands_deck players hands].
    intros p Hp. destruct (decide (name = p)) as [->|Hne].
    + rewrite lookup_insert_eq. by eexists.
    + rewrite lookup_insert_ne by done. by apply Hhas.
  - pose proof (mark_ready_frame rid name room)
      as (-> & _ & _ & _ & _ & _ & -> & _).
    done.
  - pose proof (advance_turn_room rid ss (mark_ready rid name room).1)
      as (Hp' & _).
    pose proof (advance_turn_hands rid ss (mark_ready rid name room).1)
      as [Hh' _].
    pose proof (mark_ready_frame rid name room)
      as (Hp1 & _ & _ & _ & _ & _ & Hh1 & _).
    cbn zeta in *. rewrite Hp', Hp1, Hh', Hh1.
    match goal with
    | |- context [fold_left ?f ?subs (?hs, ?dk, ?outs)] =>
      pose proof (replenish_hands rid ss subs hs dk outs) as (Hsome & _)
    end.
    intros p Hp. by apply Hsome, Hhas.
  - cbn [remove_player players hands].
    intros p [Hne Hp]%list_elem_of_filter.
    rewrite lookup_delete_ne by done. by apply Hhas.
Qed.

Lemma roster_hands_at_most_seven_witness :
  let room := room_of "R1" (run startup full_round) in
  (∀ p, p ∈ players room → is_Some (hands room !! p))
  ∧ (∀ p h, hands room !! p = Some h → (length h ≤ 7)%nat).
Proof.
  apply (roster_hands_at_most_seven full_round "R1").
  vm_compute. reflexivity.
Defined.

(** X3: in every room reached from startup no player has two submissions,
    and each recorded submission is stamped with the room's current turn and
    carries exactly two used cards. *)
Theorem submissions_current_and_single evs rid room :
  rooms (run startup evs) !! rid = Some room →
  NoDup (submitters room)
  ∧ (∀ t, t ∈ submissions room →
       Submission.turn t = turn room
       ∧ ∃ c1 c2, Submission.usedCards t = JsArray [c1; c2]).
Proof.
  assert (∀ u, valid_usedCards u = true ↔ ∃ c1 c2, u = JsArray [c1; c2]) as Hv.
  { intros [|cards]; cbn.
    - split; [done|by intros (? & ? & ?)].
    - rewrite bool_decide_eq_true. split.
      + destruct cards as [|a [|b [|c l]]]; try done. by eauto.
      + by intros (c1 & c2 & [= ->]). }
  apply (reachable_rooms
    (λ room, NoDup (submitters room)
             ∧ ∀ t, t ∈ submissions room →
                 Submission.turn t = turn room
                 ∧ ∃ c1 c2, Submission.usedCards t = JsArray [c1; c2]));
    [intros sh; split; [constructor|by intros t ?%elem_of_nil]|].
  clear evs rid room. intros ss rid room room' [Hnd Hall] Hmv.
  unfold submitters in *.
  destruct Hmv as [name|name title used Hvalid|name target
                  |name card hand Hhand Hin|name|name Hbar Hguard|name];
    try done.
  - cbn [deal remove_player submissions turn]. split.
    + by apply filter_names_NoDup.
    + intros t [_ Ht]%list_elem_of_filter. by apply Hall.
  - cbn [record_submission submissions turn]. split.
    + rewrite fmap_app. apply NoDup_app.
      split_and!; [by apply filter_names_NoDup| |apply NoDup_singleton].
      intros x (t & -> & [Hne _]%list_elem_of_filter)%list_elem_of_fmap
        Heq%list_elem_of_singleton. done.
    + intros t [[_ Ht]%list_elem_of_filter|Heq%list_elem_of_singleton]%elem_of_app;
        [by apply Hall|].
      subst t. split; [done|]. by apply Hv.
  - cbn [record_vote submissions turn]. split.
    + by rewrite count_vote_names.
    + intros t' [Ht|(t & Ht & _ & ->)]%count_vote_elem;
        [by apply Hall|exact (Hall t Ht)].
  - pose proof (mark_ready_frame rid name room)
      as (_ & _ & _ & -> & -> & _). done.
  - pose proof (advance_turn_room rid ss (mark_ready rid name room).1)
      as (_ & _ & _ & _ & Hs & _).
    cbn zeta in Hs. rewrite Hs.
    split; [constructor|by intros t ?%elem_of_nil].
  - cbn [remove_player submissions turn]. split.
    + by apply filter_names_NoDup.
    + intros t [_ Ht]%list_elem_of_filter. by apply Hall.
Qed.

Lemma submissions_current_and_single_witness :
  let room := room_of "R1" barrier_minus_one in
  NoDup (submitters room)
  ∧ (∀ t, t ∈ submissions room →
       Submission.turn t = turn room
       ∧ ∃ c1 c2, Submission.usedCards t = JsArray [c1; c2]).
Proof.
  apply (submissions_current_and_single
           (two_joined ++
              [SubmitTitle "s1" "R1" "Alice" "T" (JsArray ["c1"; "c2"]);
               ReadyForNextTurn "s1" "R1" "Alice"]) "R1").
  vm_compute. reflexivity.
Defined.

(** X4: in every room reached from startup by events whose room ids, player
    names and vote targets name no property of [Object.prototype], a tally
    that is present is at least 1, and the vote count shown on a submission
    never exceeds the room's tally for its author. *)
Theorem submission_votes_within_tally evs rid room :
  Forall plain_event evs →
  rooms (run startup evs) !! rid = Some room →
  (∀ p n, votes room !! p = Some n → (1 ≤ n)%nat)
  ∧ (∀ t, t ∈ submissions room →
       (Submission.votes t ≤ default 0 (votes room !! Submission.playerName t))%nat).
Proof.
  intros _. revert evs rid room.
  apply (reachable_rooms
    (λ room, (∀ p n, votes room !! p = Some n → (1 ≤ n)%nat)
             ∧ ∀ t, t ∈ submissions room →
                 (Submission.votes t
                  ≤ default 0 (votes room !! Submission.playerName t))%nat));
    [intros sh; split; [by intros p n ?|by intros t ?%elem_of_nil]|].
  intros ss rid room room' [Hpos Hle] Hmv.
  destruct Hmv as [name|name title used Hvalid|name target
                  |name card hand Hhand Hin|name|name Hbar Hguard|name];
    try done.
  - cbn [deal remove_player submissions votes]. split.
    + intros p n [_ Hp]%lookup_delete_Some. by eapply Hpos.
    + intros t [Hne Ht]%list_elem_of_filter.
      rewrite lookup_delete_ne by done. by apply Hle.
  - cbn [record_submission submissions votes]. split; [done|].
    intros t [[_ Ht]%list_elem_of_filter|Heq%list_elem_of_singleton]%elem_of_app;
      [by apply Hle|].
    subst t. cbn. lia.
  - cbn [record_vote submissions votes]. rewrite or_zero_default. split.
    + intros p n. destruct (decide (target = p)) as [->|Hne].
      * rewrite lookup_insert_eq. intros [= <-]. lia.
      * rewrite lookup_insert_ne by done. apply Hpos.
    + assert (∀ t, t ∈ submissions room →
                (Submission.votes t
                 ≤ default 0 (<[target := default 0 (votes room !! target) + 1]>
                                (votes room) !! Submission.playerName t))%nat)
        as Hold.
      { intros t Ht. specialize (Hle t Ht).
        destruct (decide (target = Submission.playerName t)) as [->|Hne].
        - rewrite lookup_insert_eq. simpl. lia.
        - by rewrite lookup_insert_ne. }
      intros t' [Ht|(t & Ht & <- & ->)]%count_vote_elem; [by apply Hold|].
      specialize (Hle t Ht). cbn. rewrite lookup_insert_eq. simpl. lia.
  - pose proof (mark_ready_frame rid name room)
      as (_ & -> & _ & _ & -> & _). done.
  - pose proof (advance_turn_room rid ss (mark_ready rid name room).1)
      as (_ & Hv & _ & _ & Hs & _).
    cbn zeta in Hv, Hs. rewrite Hv, Hs.
    split; [by intros p n ?|by intros t ?%elem_of_nil].
  - cbn [remove_player submissions votes]. split.
    + intros p n [_ Hp]%lookup_delete_Some. by eapply Hpos.
    + intros t [Hne Ht]%list_elem_of_filter.
      rewrite lookup_delete_ne by done. by apply Hle.
Qed.

Lemma submission_votes_within_tally_witness :
  let room := room_of "R1" (run barrier_minus_one [Vote "s2" "R1" "Bob" "Alice"]) in
  (∀ p n, votes room !! p = Some n → (1 ≤ n)%nat)
  ∧ (∀ t, t ∈ submissions room →
       (Submission.votes t ≤ default 0 (votes room !! Submission.playerName t))%nat).
Proof.
  apply (submission_votes_within_tally
           (two_joined ++
              [SubmitTitle "s1" "R1" "Alice" "T" (JsArray ["c1"; "c2"]);
               ReadyForNextTurn "s1" "R1" "Alice"; Vote "s2" "R1" "Bob" "Alice"])
           "R1").
  - repeat constructor.
  - vm_compute. reflexivity.
Defined.

(** X5: in every room reached from startup by events whose room ids, player
    names and vote targets name no property of [Object.prototype], the turn
    is at least 1 and [_turnProcessed], once set, is below the turn; so the
    guard never holds the block back, and ready-for-next-turn advances the
    turn exactly when the ready list, with the caller recorded, is as long
    as the roster. *)
Theorem barrier_alone_decides evs sid rid name room :
  Forall plain_event evs →
  rooms (run startup evs) !! rid = Some room →
  (1 ≤ turn room)%nat
  ∧ (∀ p, _turnProcessed room = Some p → (p < turn room)%nat)
  ∧ (emits_next_turn rid
       (ready_for_next_turn sid rid name (run startup evs)).2 = true
     ↔ length (readyPlayers (mark_ready rid name room).1)
       = length (players room)).
Proof.
  intros _ Hroom.
  assert ((1 ≤ turn room)%nat
          ∧ ∀ p, _turnProcessed room = Some p → (p < turn room)%nat)
    as [Hone Hbelow].
  { revert evs rid room Hroom.
    apply (reachable_rooms
      (λ room, (1 ≤ turn room)%nat
               ∧ ∀ p, _turnProcessed room = Some p → (p < turn room)%nat));
      [intros sh; split; [cbn; lia|by intros p ?]|].
    intros ss rid room room' [Hone Hbelow] Hmv.
    destruct Hmv as [name'|name' title used Hvalid|name' target
                    |name' card hand Hhand Hin|name'|name' Hbar Hguard|name'];
      try done.
    - pose proof (mark_ready_frame rid name' room)
        as (_ & _ & _ & -> & _ & _ & _ & ->). done.
    - pose proof (advance_turn_room rid ss (mark_ready rid name' room).1)
        as (_ & _ & _ & _ & _ & Ht & Hg).
      pose proof (mark_ready_frame rid name' room)
        as (_ & _ & _ & Ht1 & _).
      cbn zeta in *. rewrite Ht, Hg, Ht1.
      split; [lia|]. intros p [= <-]. lia. }
  split_and!; [done..|].
  destruct (ready_for_next_turn_cases sid rid name _ room Hroom)
    as [(Hbar & _ & -> & _)|(Hnot & -> & _)]; [done|].
  split; [done|]. intros Hbar. destruct Hnot. split; [done|].
  intros Heq. specialize (Hbelow _ Heq). lia.
Qed.

Lemma barrier_alone_decides_witness :
  let room := room_of "R1" barrier_minus_one in
  (1 ≤ turn room)%nat
  ∧ (∀ p, _turnProcessed room = Some p → (p < turn room)%nat)
  ∧ (emits_next_turn "R1"
       (ready_for_next_turn "s2" "R1" "Bob" barrier_minus_one).2 = true
     ↔ length (readyPlayers (mark_ready "R1" "Bob" room).1)
       = length (players room)).
Proof.
  apply (barrier_alone_decides
           (two_joined ++
              [SubmitTitle "s1" "R1" "Alice" "T" (JsArray ["c1"; "c2"]);
               ReadyForNextTurn "s1" "R1" "Alice"]) "s2" "R1" "Bob").
  - repeat constructor.
  - vm_compute. reflexivity.
Defined.

(** ** Rooms along a run *)

(** X6: a room, once created, is never dropped, and its turn never goes
    down, whatever events follow. *)
Theorem rooms_persist_turns_grow st evs rid t :
  room_turn rid st = Some t →
  ∃ t', room_turn rid (run st evs) = Some t' ∧ (t ≤ t')%nat.
Proof.
  revert st t. induction evs as [|ev evs IH]; intros st t Ht.
  - exists t. by split.
  - pose proof (room_turn_step st ev rid t Ht) as Hstep.
    destruct (IH _ _ Hstep) as (t' & Hrun & Hle).
    exists t'. split; [exact Hrun|].
    destruct (emits_next_turn _ _); lia.
Qed.

Lemma rooms_persist_turns_grow_witness :
  ∃ t', room_turn "R1" (run barrier_minus_one
                          [ReadyForNextTurn "s2" "R1" "Bob"; Disconnect "s1";
                           Disconnect "s2"]) = Some t'
        ∧ (1 ≤ t')%nat.
Proof.
  apply (rooms_persist_turns_grow barrier_minus_one
           [ReadyForNextTurn "s2" "R1" "Bob"; Disconnect "s1"; Disconnect "s2"]
           "R1" 1).
  vm_compute. reflexivity.
Defined.

(** X7: an event changes no room other than the one it is about (for a
    disconnect, the room the socket is bound to). *)
Theorem other_rooms_untouched st ev rid :
  event_room st ev ≠ Some rid →
  rooms (step st ev).1 !! rid = rooms st !! rid.
Proof.
  intros Hother.
  destruct (step_writes st ev)
    as [->|(rid' & room & room' & Hev & _ & _ & ->)]; [done|].
  apply lookup_insert_ne. congruence.
Qed.

Lemma other_rooms_untouched_witness :
  rooms (step two_rooms (Disconnect "s2")).1 !! "R1" = rooms two_rooms !! "R1".
Proof.
  apply (other_rooms_untouched two_rooms (Disconnect "s2") "R1").
  vm_compute. discriminate.
Defined.

(** ** The replenish loop of the turn advancement *)

(** Every submitter ends the loop with seven cards or more, unless the deck
    has run out. *)
Lemma replenish_full rid ss (subs : list Submission.t)
    (hs : gmap string (list Card)) (dk : list Card) outs :
  let res := fold_left (replenish rid ss) subs (hs, dk, outs) in
  ∀ p, p ∈ Submission.playerName <$> subs →
    ∃ h, res.1.1 !! p = Some h ∧ ((7 ≤ length h)%nat ∨ res.1.2 = []).
Proof.
  induction subs as [|t subs IH] using rev_ind; [by intros res p ?%elem_of_nil|].
  cbn zeta in *. rewrite replenish_snoc. cbn [fst snd].
  set (before := fold_left (replenish rid ss) subs (hs, dk, outs)) in *.
  intros p Hp. destruct (decide (Submission.playerName t = p)) as [<-|Hne].
  - rewrite lookup_insert_eq. eexists. split; [done|].
    match goal with
    | |- context [take ?n ?l] =>
      destruct (decide (n ≤ length l)%nat) as [Hle|Hgt];
        [left; rewrite length_app, length_take; lia
        |right; apply drop_ge; lia]
    end.
  - rewrite lookup_insert_ne by done.
    rewrite fmap_app, elem_of_app in Hp.
    destruct Hp as [Hp|Hp%list_elem_of_singleton]; [|done].
    destruct (IH p Hp) as (h & Hh & [Hfull|Hempty]); exists h;
      (split; [done|]); [by left|right].
    rewrite Hempty. by destruct (Z.to_nat _).
Qed.

(** X8: turn advancement keeps the roster and leaves the hand entry of every
    player without a submission as it was. *)
Theorem advance_spares_non_submitters sid rid name st room :
  rooms st !! rid = Some room →
  emits_next_turn rid (ready_for_next_turn sid rid name st).2 = true →
  ∃ room',
    rooms (ready_for_next_turn sid rid name st).1 !! rid = Some room'
    ∧ players room' = players room
    ∧ ∀ p, p ∉ submitters room → hands room' !! p = hands room !! p.
Proof.
  intros Hroom Hemit.
  destruct (ready_for_next_turn_cases sid rid name st room Hroom)
    as [(_ & _ & _ & ->)|(_ & Hno & _)]; [|congruence].
  rewrite lookup_insert_eq. eexists. split; [done|].
  pose proof (advance_turn_room rid (sockets st) (mark_ready rid name room).1)
    as (-> & _).
  pose proof (advance_turn_hands rid (sockets st) (mark_ready rid name room).1)
    as [-> _].
  pose proof (mark_ready_frame rid name room)
    as (-> & _ & _ & _ & -> & -> & -> & _).
  split; [done|]. intros p Hp.
  by apply replenish_hands.
Qed.

Lemma advance_spares_non_submitters_witness :
  ∃ room',
    rooms (ready_for_next_turn "s2" "R1" "Bob" barrier_minus_one).1 !! "R1"
      = Some room'
    ∧ players room' = players (room_of "R1" barrier_minus_one)
    ∧ ∀ p, p ∉ submitters (room_of "R1" barrier_minus_one) →
        hands room' !! p = hands (room_of "R1" barrier_minus_one) !! p.
Proof.
  apply (advance_spares_non_submitters "s2" "R1" "Bob" barrier_minus_one
           (room_of "R1" barrier_minus_one)).
  - vm_compute. reflexivity.
  - vm_compute. reflexivity.
Defined.

(** X9: when the turn advances in a room reached from startup, every player
    with a submission ends up with exactly seven cards, unless the deck ran
    out, in which case the deck is left empty. *)
Theorem advance_refills_submitters evs sid rid name room :
  rooms (run startup evs) !! rid = Some room →
  emits_next_turn rid
    (ready_for_next_turn sid rid name (run startup evs)).2 = true →
  ∃ room',
    rooms (ready_for_next_turn sid rid name (run startup evs)).1 !! rid
      = Some room'
    ∧ ∀ p, p ∈ submitters room →
        ∃ h, hands room' !! p = Some h ∧ (length h = 7 ∨ deck room' = []).
Proof.
  intros Hroom Hemit.
  pose proof (reachable_hands_bounded
                (evs ++ [ReadyForNextTurn sid rid name]) rid) as Hbound.
  rewrite run_snoc in Hbound. cbn [step] in Hbound.
  destruct (ready_for_next_turn_cases sid rid name _ room Hroom)
    as [(_ & _ & _ & Hrooms)|(_ & Hno & _)]; [|congruence].
  rewrite Hrooms in Hbound |- *. rewrite lookup_insert_eq in Hbound |- *.
  eexists. split; [done|]. intros p Hp.
  specialize (Hbound _ eq_refl p).
  pose proof (advance_turn_hands rid (sockets (run startup evs))
                (mark_ready rid name room).1) as [Hh Hd].
  cbn zeta in Hh, Hd. rewrite Hh, Hd in *.
  pose proof (mark_ready_frame rid name room)
    as (_ & _ & _ & _ & Hs & Hd1 & Hh1 & _).
  cbn zeta in Hs, Hd1, Hh1. rewrite Hs, Hd1, Hh1 in *.
  destruct (replenish_full rid (sockets (run startup evs)) (submissions room)
              (hands room) (deck room) [] p Hp) as (h & Hlook & Hfull).
  exists h. split; [done|]. specialize (Hbound h Hlook).
  destruct Hfull as [Hfull|Hempty]; [left; lia|by right].
Qed.

Lemma advance_refills_submitters_witness :
  ∃ room',
    rooms (ready_for_next_turn "s2" "R1" "Bob" barrier_minus_one).1 !! "R1"
      = Some room'
    ∧ ∀ p, p ∈ submitters (room_of "R1" barrier_minus_one) →
        ∃ h, hands room' !! p = Some h ∧ (length h = 7 ∨ deck room' = []).
Proof.
  apply (advance_refills_submitters
           (two_joined ++
              [SubmitTitle "s1" "R1" "Alice" "T" (JsArray ["c1"; "c2"]);
               ReadyForNextTurn "s1" "R1" "Alice"]) "s2" "R1" "Bob"
           (room_of "R1" barrier_minus_one)).
  - vm_compute. reflexivity.
  - vm_compute. reflexivity.
Defined.

(** ** Who receives a hand at turn advancement *)

Section Addressing.
Implicit Types (ss : list (string * option SocketData)) (rid name : string).

Lemma find_socket_bound ss rid name s :
  find_socket ss rid name = Some s →
  (s, Some {| roomId := rid; playerName := name |}) ∈ ss.
Proof.
  unfold find_socket.
  destruct (List.find _ ss) as [[s' d]|] eqn:Hfind; [|done].
  intros [= <-]. apply find_some in Hfind as [Hin Hd].
  apply bool_decide_eq_true_1 in Hd. cbn in Hd. subst d.
  by apply list_elem_of_In.
Qed.

Lemma replenish_addresses rid ss (subs : list Submission.t) hs dk outs :
  Forall (to_bound_socket ss rid) outs →
  Forall (to_bound_socket ss rid)
    (fold_left (replenish rid ss) subs (hs, dk, outs)).2.
Proof.
  revert hs dk outs.
  induction subs as [|t subs IH]; intros hs dk outs Houts; [done|].
  cbn [fold_left]. unfold replenish at 2. cbn [drawCards]. apply IH.
  apply Forall_app. split; [done|].
  destruct (find_socket ss rid _) as [s|] eqn:Hs; [|constructor].
  repeat constructor. eexists. by apply find_socket_bound.
Qed.

Lemma resend_addresses rid ss (hs : gmap string (list Card)) (l : list string) :
  Forall (to_bound_socket ss rid)
    (flat_map (λ p, match find_socket ss rid p with
                    | Some s => [io_to s (deal_hand (hs !! p))]
                    | None => []
                    end) l).
Proof.
  induction l as [|p l IH]; [constructor|].
  cbn [flat_map]. apply Forall_app. split; [|done].
  destruct (find_socket ss rid p) as [s|] eqn:Hs; [|constructor].
  repeat constructor. eexists. by apply find_socket_bound.
Qed.

Lemma replenish_via_io rid ss (subs : list Submission.t) hs dk outs :
  Forall via_io outs →
  Forall via_io (fold_left (replenish rid ss) subs (hs, dk, outs)).2.
Proof.
  revert hs dk outs.
  induction subs as [|t subs IH]; intros hs dk outs Houts; [done|].
  cbn [fold_left]. unfold replenish at 2. cbn [drawCards]. apply IH.
  apply Forall_app. split; [done|].
  destruct (find_socket ss rid _); by repeat constructor.
Qed.

Lemma resend_via_io rid ss (hs : gmap string (list Card)) (l : list string) :
  Forall via_io
    (flat_map (λ p, match find_socket ss rid p with
                    | Some s => [io_to s (deal_hand (hs !! p))]
                    | None => []
                    end) l).
Proof.
  induction l as [|p l IH]; [constructor|].
  cbn [flat_map]. apply Forall_app. split; [|done].
  destruct (find_socket ss rid p); by repeat constructor.
Qed.
End Addressing.

(** X10: every hand that ready-for-next-turn sends out goes to a socket
    whose binding names this room; the handler sends nothing by
    [socket.emit]. *)
Theorem advance_deals_to_bound_sockets sid rid name st :
  Forall (to_bound_socket (sockets st) rid) (ready_for_next_turn sid rid name st).2
  ∧ ∀ s m, socket_emit s m ∉ (ready_for_next_turn sid rid name st).2.
Proof.
  assert (∀ outs : list Out, Forall via_io outs → ∀ s m, socket_emit s m ∉ outs)
    as Hno.
  { intros outs Hall s m Hin. by apply (proj1 (Forall_forall _ _) Hall) in Hin. }
  unfold ready_for_next_turn.
  destruct (rooms st !! rid) as [room|]; [|split; [constructor|by apply Hno]].
  assert (Forall (to_bound_socket (sockets st) rid) (mark_ready rid name room).2
          ∧ Forall via_io (mark_ready rid name room).2) as [Hmark Hmark'].
  { unfold mark_ready. case_bool_decide; split; by repeat constructor. }
  destruct (mark_ready rid name room) as [room1 outs1]. cbn [snd] in *.
  repeat case_decide; cbn [snd]; try (split; [done|by apply Hno]).
  unfold advance_turn.
  pose proof (replenish_addresses rid (sockets st) (submissions room1)
                (hands room1) (deck room1) [] (Forall_nil_2 _)) as Hloop.
  pose proof (replenish_via_io rid (sockets st) (submissions room1)
                (hands room1) (deck room1) [] (Forall_nil_2 _)) as Hloop'.
  destruct (fold_left _ _ _) as [[hs dk] outs]. cbn [snd] in *.
  split.
  - repeat (apply Forall_app; split); try done; [by repeat constructor|].
    apply resend_addresses.
  - apply Hno. repeat (apply Forall_app; split); try done;
      [by repeat constructor|].
    apply resend_via_io.
Qed.

(** ** drawCards *)

(** X11: [drawCards] splits the deck: the cards drawn followed by the deck
    left are the deck it was given, and it draws [count] cards, all the deck
    if it is shorter, none if [count] is not positive. *)
Theorem drawCards_splits_deck (deck : list Card) (count : Z) :
  (drawCards deck count).1 ++ (drawCards deck count).2 = deck
  ∧ Z.of_nat (length (drawCards deck count).1)
    = Z.max 0 (Z.min count (Z.of_nat (length deck))).
Proof.
  unfold drawCards. cbn [fst snd]. split; [apply take_drop|].
  rewrite length_take. lia.
Qed.

(** ** join-room and the cards of the old hand *)

(** X12: joining again under a name that holds a hand deals seven new cards
    from the front of the deck and drops the old hand: its cards are in no
    hand and not in the deck afterwards. *)
Theorem rejoin_drops_old_hand sid rid name shuffled st room old :
  rooms st !! rid = Some room → hands room !! name = Some old →
  ∃ room',
    rooms (join_room sid rid name shuffled st).1 !! rid = Some room'
    ∧ hands room' !! name = Some (take 7 (deck room))
    ∧ deck room' = drop 7 (deck room)
    ∧ old ++ room_cards room' ≡ₚ room_cards room.
Proof.
  intros Hroom Hold. rewrite join_room_eq. cbn [fst rooms].
  rewrite lookup_insert_eq, Hroom. eexists. split; [done|].
  cbn [default remove_player hands deck]. split_and!; [apply lookup_insert_eq|done|].
  unfold room_cards. cbn [hands deck].
  rewrite hand_cards_insert, delete_delete_eq.
  rewrite (hand_cards_delete (hands room) name old Hold).
  change (id room) with room.
  rewrite <-(take_drop 7 (deck room)) at 3.
  rewrite <-!app_assoc. f_equiv.
  rewrite !app_assoc. f_equiv. apply Permutation_app_comm.
Qed.

Lemma rejoin_drops_old_hand_witness :
  ∃ room',
    rooms (join_room "s2" "R1" "Alice" sixteen seated).1 !! "R1" = Some room'
    ∧ hands room' !! "Alice" = Some (take 7 (deck (room_of "R1" seated)))
    ∧ deck room' = drop 7 (deck (room_of "R1" seated))
    ∧ seven ++ room_cards room' ≡ₚ room_cards (room_of "R1" seated).
Proof.
  apply (rejoin_drops_old_hand "s2" "R1" "Alice" sixteen seated
           (room_of "R1" seated) seven).
  - vm_compute. reflexivity.
  - vm_compute. reflexivity.
Defined.

(** X13: for a room id and a player name that name no property of
    [Object.prototype], the hand request-hand returns right after a join is
    the hand the join dealt, whichever socket asks. *)
Theorem request_hand_after_join sid sid' rid name shuffled st :
  plain rid → plain name →
  ∃ hand roster,
    (join_room sid rid name shuffled st).2
    = [socket_emit sid (deal_hand (Some hand));
       io_to rid (players_in_room roster)]
    ∧ request_hand sid' rid name (join_room sid rid name shuffled st).1
      = ((join_room sid rid name shuffled st).1,
         [socket_emit sid' (deal_hand (Some hand))]).
Proof.
  intros _ _.
  rewrite join_room_eq. cbn [fst snd]. do 2 eexists. split; [done|].
  unfold request_hand. cbn [rooms]. rewrite lookup_insert_eq.
  cbn [hands]. by rewrite lookup_insert_eq.
Qed.

Lemma request_hand_after_join_witness :
  ∃ hand roster,
    (join_room "s1" "R1" "Alice" nine lobby).2
    = [socket_emit "s1" (deal_hand (Some hand));
       io_to "R1" (players_in_room roster)]
    ∧ request_hand "s2" "R1" "Alice" (join_room "s1" "R1" "Alice" nine lobby).1
      = ((join_room "s1" "R1" "Alice" nine lobby).1,
         [socket_emit "s2" (deal_hand (Some hand))]).
Proof.
  apply (request_hand_after_join "s1" "s2" "R1" "Alice" nine lobby).
  - vm_compute. reflexivity.
  - vm_compute. reflexivity.
Defined.

(** ** Session binding and disconnect *)

Section Binding.
Implicit Types (ss : list (string * option SocketData)) (st : Server).


(** A registered socket reads back the binding just written. *)
Lemma socket_data_set sid d ss :
  sid ∈ ss.*1 → socket_data sid (set_data sid d ss) = Some d.
Proof.
  unfold socket_data, set_data.
  induction ss as [|[s o] ss IH]; [by intros ?%elem_of_nil|].
  rewrite fmap_cons. intros Hin. cbn [map fst snd].
  destruct (decide (s = sid)) as [->|Hne].
  - cbn. by rewrite bool_decide_eq_true_2.
  - cbn. rewrite bool_decide_eq_false_2 by done.
    apply IH. apply elem_of_cons in Hin as [Heq|Hin]; [by subst|done].
Qed.

Lemma removePlayerFromRoom_lookup rid name (rs : gmap string Room) rid' :
  removePlayerFromRoom rid name rs !! rid'
  = if decide (rid = rid') then remove_player name <$> rs !! rid'
    else rs !! rid'.
Proof.
  unfold removePlayerFromRoom. case_decide as Heq.
  - subst rid'. destruct (rs !! rid) as [room|] eqn:Hroom.
    + by rewrite lookup_insert_eq.
    + by rewrite Hroom.
  - destruct (rs !! rid) as [room|]; [|done]. by rewrite lookup_insert_ne.
Qed.

Lemma disconnect_bound sid st d :
  socket_data sid (sockets st) = Some d →
  rooms (disconnect sid st).1
  = (if truthy (roomId d) && truthy (playerName d)
     then removePlayerFromRoom (roomId d) (playerName d) (rooms st)
     else rooms st)
  ∧ (disconnect sid st).2
    = if truthy (roomId d) && truthy (playerName d)
      then [io_to (roomId d)
              (players_in_room
                 (default [] (players <$>
                    removePlayerFromRoom (roomId d) (playerName d) (rooms st)
                      !! roomId d)))]
      else [].
Proof.
  intros Hd. unfold disconnect. rewrite Hd.
  by destruct (truthy (roomId d) && truthy (playerName d)).
Qed.

Lemma filter_ne_again (name : string) (l : list string) :
  filter (λ n, n ≠ name) (filter (λ n, n ≠ name) l ++ [name])
  = filter (λ n, n ≠ name) l.
Proof.
  rewrite filter_app, list_filter_filter.
  rewrite (filter_cons_False _ name) by tauto.
  rewrite filter_nil, app_nil_r. apply list_filter_iff. tauto.
Qed.
End Binding.

(** X14: a join followed by the disconnect of the same socket, with a room
    id and a name that are non-empty and name no property of
    [Object.prototype], takes the player out again: the roster is the old
    one without the name, the hand entry is gone, the seven cards dealt do
    not return to the deck, and the roster is broadcast to the room; this in
    any state reached from startup by events with keys of that kind. *)
Theorem disconnect_after_join_removes evs sid rid name shuffled :
  Forall plain_event evs → plain rid → plain name →
  let st := run startup evs in
  sid ∈ (sockets st).*1 → truthy rid = true → truthy name = true →
  let st1 := (join_room sid rid name shuffled st).1 in
  let before := default (createNewRoom shuffled) (rooms st !! rid) in
  ∃ room',
    rooms (disconnect sid st1).1 !! rid = Some room'
    ∧ players room' = filter (λ n, n ≠ name) (players before)
    ∧ hands room' !! name = None
    ∧ deck room' = drop 7 (deck before)
    ∧ (disconnect sid st1).2 = [io_to rid (players_in_room (players room'))].
Proof.
  intros _ _ _ st Hreg Hrid Hname st1 before.
  assert (socket_data sid (sockets st1)
          = Some {| roomId := rid; playerName := name |}) as Hd.
  { subst st1. rewrite join_room_eq. cbn [fst sockets].
    by apply socket_data_set. }
  destruct (disconnect_bound sid st1 _ Hd) as [Hrooms Houts].
  cbn [roomId playerName] in Hrooms, Houts.
  rewrite Hrid, Hname in Hrooms, Houts. cbn [andb] in Hrooms, Houts.
  rewrite Houts, Hrooms, removePlayerFromRoom_lookup.
  rewrite decide_True by done.
  subst st1. rewrite join_room_eq. cbn [fst rooms].
  rewrite lookup_insert_eq. cbn [fmap option_fmap option_map default].
  eexists. split; [done|].
  cbn [remove_player players hands deck].
  split_and!; [apply filter_ne_again|apply lookup_delete_eq|done|].
  by rewrite filter_ne_again.
Qed.

Lemma disconnect_after_join_removes_witness :
  let st := run startup [Connection "s1"] in
  let st1 := (join_room "s1" "R1" "Alice" nine st).1 in
  let before := default (createNewRoom nine) (rooms st !! "R1") in
  ∃ room',
    rooms (disconnect "s1" st1).1 !! "R1" = Some room'
    ∧ players room' = filter (λ n, n ≠ "Alice") (players before)
    ∧ hands room' !! "Alice" = None
    ∧ deck room' = drop 7 (deck before)
    ∧ (disconnect "s1" st1).2 = [io_to "R1" (players_in_room (players room'))].
Proof.
  apply (disconnect_after_join_removes [Connection "s1"] "s1" "R1" "Alice" nine).
  - repeat constructor.
  - vm_compute. reflexivity.
  - vm_compute. reflexivity.
  - cbn. set_solver.
  - reflexivity.
  - reflexivity.
Defined.

(** X15: a socket that joined with an empty name or an empty room id (room
    id and name naming no property of [Object.prototype]) is not cleaned up
    on disconnect: the rooms stay as they are, the player stays in the
    roster, and no roster is broadcast. *)
Theorem falsy_binding_survives_disconnect sid rid name shuffled st :
  plain rid → plain name →
  sid ∈ (sockets st).*1 → truthy rid && truthy name = false →
  let st1 := (join_room sid rid name shuffled st).1 in
  rooms (disconnect sid st1).1 = rooms st1
  ∧ (disconnect sid st1).2 = []
  ∧ ∃ room, rooms (disconnect sid st1).1 !! rid = Some room
            ∧ name ∈ players room.
Proof.
  intros _ _ Hreg Hfalsy st1.
  assert (socket_data sid (sockets st1)
          = Some {| roomId := rid; playerName := name |}) as Hd.
  { subst st1. rewrite join_room_eq. cbn [fst sockets].
    by apply socket_data_set. }
  destruct (disconnect_bound sid st1 _ Hd) as [Hrooms Houts].
  cbn [roomId playerName] in Hrooms, Houts.
  rewrite Hfalsy in Hrooms, Houts. rewrite Hrooms, Houts.
  split_and!; [done..|].
  subst st1. rewrite join_room_eq. cbn [fst rooms].
  rewrite lookup_insert_eq. eexists. split; [done|].
  cbn [players]. apply elem_of_app. right. by apply list_elem_of_singleton.
Qed.

Lemma falsy_binding_survives_disconnect_witness :
  let st1 := (join_room "s1" "R1" "" nine lobby).1 in
  rooms (disconnect "s1" st1).1 = rooms st1
  ∧ (disconnect "s1" st1).2 = []
  ∧ ∃ room, rooms (disconnect "s1" st1).1 !! "R1" = Some room
            ∧ "" ∈ players room.
Proof.
  apply (falsy_binding_survives_disconnect "s1" "R1" "" nine lobby).
  - vm_compute. reflexivity.
  - vm_compute. reflexivity.
  - unfold lobby. cbn. set_solver.
  - reflexivity.
Defined.



(** ** removePlayerFromRoom *)

(** X17: removing one player touches nobody else: every other player keeps
    the place in the roster, the voted and ready marks, the tally, the hand
    and the submissions, and deck and turn stay as they are. *)
Theorem remove_player_spares_others name other room :
  other ≠ name →
  let room' := remove_player name room in
  (other ∈ players room' ↔ other ∈ players room)
  ∧ (other ∈ votedPlayers room' ↔ other ∈ votedPlayers room)
  ∧ (other ∈ readyPlayers room' ↔ other ∈ readyPlayers room)
  ∧ votes room' !! other = votes room !! other
  ∧ hands room' !! other = hands room !! other
  ∧ submissions_of other room' = submissions_of other room
  ∧ deck room' = deck room ∧ turn room' = turn room.
Proof.
  intros Hne room'. subst room'.
  cbn [remove_player players votedPlayers readyPlayers votes hands deck turn].
  rewrite !list_elem_of_filter, !lookup_delete_ne by done.
  split_and!; try tauto; try done.
  unfold submissions_of. cbn [remove_player submissions].
  rewrite list_filter_filter. apply list_filter_iff.
  intros t. split; [tauto|]. intros Ht. split; [done|congruence].
Qed.

Lemma remove_player_spares_others_witness :
  let room := room_of "R1" barrier_minus_one in
  let room' := remove_player "Bob" room in
  ("Alice" ∈ players room' ↔ "Alice" ∈ players room)
  ∧ ("Alice" ∈ votedPlayers room' ↔ "Alice" ∈ votedPlayers room)
  ∧ ("Alice" ∈ readyPlayers room' ↔ "Alice" ∈ readyPlayers room)
  ∧ votes room' !! "Alice" = votes room !! "Alice"
  ∧ hands room' !! "Alice" = hands room !! "Alice"
  ∧ submissions_of "Alice" room' = submissions_of "Alice" room
  ∧ deck room' = deck room ∧ turn room' = turn room.
Proof.
  apply (remove_player_spares_others "Bob" "Alice"
           (room_of "R1" barrier_minus_one)).
  discriminate.
Defined.

(** ** discard-card, one for one *)

(** X18: when the hand holds the card exactly once and the deck is not
    empty, discard-card swaps one for one: the new hand is the old one
    without the card, followed by the front card of the deck, it has as many
    cards as before, the deck loses its front card, and the new hand is sent
    to the requesting socket alone. *)
Theorem discard_swaps_one_for_one sid rid name card st room l1 l2 front rest :
  rooms st !! rid = Some room →
  hands room !! name = Some (l1 ++ card :: l2) →
  card ∉ l1 → card ∉ l2 → deck room = front :: rest →
  ∃ room',
    rooms (discard_card sid rid name card st).1 !! rid = Some room'
    ∧ hands room' !! name = Some (l1 ++ l2 ++ [front])
    ∧ length (l1 ++ l2 ++ [front]) = length (l1 ++ card :: l2)
    ∧ deck room' = rest
    ∧ (discard_card sid rid name card st).2
      = [io_to sid (deal_hand (Some (l1 ++ l2 ++ [front])))].
Proof.
  intros Hroom Hhand H1 H2 Hdeck.
  assert (filter (λ c, c ≠ card) (l1 ++ card :: l2) = l1 ++ l2) as Hfilter.
  { assert (∀ l : list string, card ∉ l → filter (λ c, c ≠ card) l = l) as Hid.
    { induction l as [|x l IH]; [done|]. intros Hx.
      apply not_elem_of_cons in Hx as [Hx Hl].
      rewrite filter_cons_True by done. f_equal. by apply IH. }
    rewrite filter_app, filter_cons_False by tauto. by rewrite !Hid. }
  rewrite (discard_card_draws sid rid name card st room _ front rest Hroom Hhand);
    [|apply elem_of_app; right; by left|done].
  cbn [fst snd rooms]. rewrite lookup_insert_eq, Hfilter, <-app_assoc.
  eexists. split; [done|]. cbn [set_hands_deck hands deck].
  rewrite lookup_insert_eq. split_and!; try done.
  rewrite !length_app. cbn. lia.
Qed.

Lemma discard_swaps_one_for_one_witness :
  ∃ room',
    rooms (discard_card "s1" "R1" "Alice" "c3" (alone nine)).1 !! "R1" = Some room'
    ∧ hands room' !! "Alice"
      = Some (["c1"; "c2"] ++ ["c4"; "c5"; "c6"; "c7"] ++ ["c8"])
    ∧ length (["c1"; "c2"] ++ ["c4"; "c5"; "c6"; "c7"] ++ ["c8"])
      = length (["c1"; "c2"] ++ "c3" :: ["c4"; "c5"; "c6"; "c7"])
    ∧ deck room' = ["c9"]
    ∧ (discard_card "s1" "R1" "Alice" "c3" (alone nine)).2
      = [io_to "s1" (deal_hand (Some (["c1"; "c2"] ++ ["c4"; "c5"; "c6"; "c7"]
                                        ++ ["c8"])))].
Proof.
  apply (discard_swaps_one_for_one "s1" "R1" "Alice" "c3" (alone nine)
           (room_of "R1" (alone nine)) ["c1"; "c2"] ["c4"; "c5"; "c6"; "c7"]
           "c8" ["c9"]).
  - vm_compute. reflexivity.
  - vm_compute. reflexivity.
  - apply (bool_decide_unpack ("c3" ∉ ["c1"; "c2"])). vm_compute. exact I.
  - apply (bool_decide_unpack ("c3" ∉ ["c4"; "c5"; "c6"; "c7"])).
    vm_compute. exact I.
  - vm_compute. reflexivity.
Defined.

(** ** all-voted within a turn *)

(** What an event that is no join, ready signal or disconnect does to the
    roster and the voted list of a room, and when it broadcasts all-voted. *)
Lemma within_turn_step st ev rid :
  within_turn ev →
  match rooms st !! rid with
  | Some room =>
    ∃ room', rooms (step st ev).1 !! rid = Some room'
      ∧ players room' = players room
      ∧ (length (votedPlayers room) ≤ length (votedPlayers room'))%nat
      ∧ (emits_all_voted rid (step st ev).2 = true →
         length (votedPlayers room') = length (players room)
         ∧ (length (votedPlayers room) < length (votedPlayers room'))%nat)
  | None =>
    rooms (step st ev).1 !! rid = None
    ∧ emits_all_voted rid (step st ev).2 = false
  end.
Proof.
  assert (∀ rs : gmap string Room,
            match rs !! rid with
            | Some room =>
              ∃ room', rs !! rid = Some room'
                ∧ players room' = players room
                ∧ (length (votedPlayers room) ≤ length (votedPlayers room'))%nat
                ∧ (false = true →
                   length (votedPlayers room') = length (players room)
                   ∧ (length (votedPlayers room) < length (votedPlayers room'))%nat)
            | None => rs !! rid = None ∧ false = false
            end) as Hkept.
  { intros rs. destruct (rs !! rid) as [room|] eqn:Hroom; [|done].
    exists room. by split_and!. }
  assert (∀ (rs : gmap string Room) rid' room0 new,
            rid' ≠ rid ∨ (players new = players room0
                          ∧ votedPlayers new = votedPlayers room0) →
            rs !! rid' = Some room0 →
            match rs !! rid with
            | Some room =>
              ∃ room', <[rid' := new]> rs !! rid = Some room'
                ∧ players room' = players room
                ∧ (length (votedPlayers room) ≤ length (votedPlayers room'))%nat
                ∧ (false = true →
                   length (votedPlayers room') = length (players room)
                   ∧ (length (votedPlayers room) < length (votedPlayers room'))%nat)
            | None => <[rid' := new]> rs !! rid = None ∧ false = false
            end) as Hwritten.
  { intros rs rid' room0 new Hsame Hroom0.
    destruct (decide (rid' = rid)) as [->|Hne].
    - destruct Hsame as [?|[Hp Hv]]; [done|].
      rewrite Hroom0, lookup_insert_eq. exists new.
      split_and!; [done|done|by rewrite Hv|done].
    - rewrite lookup_insert_ne by done. apply Hkept. }
  assert (∀ target m, m ≠ all_voted →
            emits_all_voted rid [io_to target m] = false) as Hother.
  { intros target m Hm. apply bool_decide_eq_false_2.
    intros Hin%list_elem_of_singleton. congruence. }
  intros Hev.
  destruct ev as [sid|sid rid' name sh|sid rid' name title used
                 |sid rid' name target|sid rid' name card|sid rid' name
                 |sid rid' name|sid]; try done; cbn [step].
  - apply Hkept.
  - unfold submit_title.
    destruct (rooms st !! rid') as [room0|] eqn:Hroom0; [|apply Hkept].
    destruct (negb (valid_usedCards used)); [apply Hkept|].
    cbn [fst snd rooms]. rewrite Hother by done.
    apply (Hwritten _ _ room0); [by right|done].
  - unfold vote.
    destruct (rooms st !! rid') as [room0|] eqn:Hroom0; [|apply Hkept].
    cbn [fst snd rooms].
    destruct (decide (rid' = rid)) as [->|Hne].
    + rewrite Hroom0, lookup_insert_eq. eexists. split; [done|].
      cbn [players votedPlayers]. rewrite length_app. cbn [length].
      split_and!; [done|lia|].
      case_decide as Hlen; [intros _; lia|].
      unfold emits_all_voted.
      by rewrite bool_decide_eq_false_2 by (by intros ?%elem_of_nil).
    + assert (emits_all_voted rid
                (if decide (length (votedPlayers room0 ++ [name])
                            = length (players room0))
                 then [io_to rid' all_voted] else []) = false) as ->.
      { apply bool_decide_eq_false_2. case_decide; [|by intros ?%elem_of_nil].
        intros Hin%list_elem_of_singleton. congruence. }
      apply (Hwritten _ _ room0); [by left|done].
  - unfold discard_card.
    destruct (rooms st !! rid') as [room0|] eqn:Hroom0; [|apply Hkept].
    destruct (hands room0 !! name) as [hand|]; [|apply Hkept].
    destruct (negb _); [apply Hkept|].
    destruct (deck room0); cbn [fst snd rooms]; rewrite ?Hother by done;
      apply (Hwritten _ _ room0); try done; by right.
  - unfold request_hand.
    destruct (rooms st !! rid') as [room0|]; [|apply Hkept].
    destruct (hands room0 !! name); cbn [fst snd]; [|apply Hkept].
    assert (emits_all_voted rid [socket_emit sid (deal_hand (Some l))] = false)
      as ->; [|apply Hkept].
    apply bool_decide_eq_false_2. intros Hin%list_elem_of_singleton. congruence.
Qed.

(** Once the voted list is at least as long as the roster, further events of
    the turn broadcast nothing. *)
Lemma all_voted_spent rid evs : ∀ st room,
  Forall within_turn evs →
  rooms st !! rid = Some room →
  (length (players room) ≤ length (votedPlayers room))%nat →
  all_voted_broadcasts rid st evs = 0.
Proof.
  induction evs as [|ev evs IH]; intros st room Hevs Hroom Hfull; [done|].
  apply Forall_cons in Hevs as [Hev Hevs].
  pose proof (within_turn_step st ev rid Hev) as Hstep. rewrite Hroom in Hstep.
  destruct Hstep as (room' & Hroom' & Hp & Hmono & Hfire).
  cbn [all_voted_broadcasts].
  rewrite (IH _ room' Hevs Hroom') by (rewrite Hp; lia).
  destruct (emits_all_voted rid (step st ev).2); [|done].
  destruct (Hfire eq_refl). lia.
Qed.

(** X19: over any sequence of events that holds no join, no ready signal and
    no disconnect, all-voted is broadcast to a room at most once, however
    many votes arrive. *)
Theorem all_voted_at_most_once rid evs st :
  Forall within_turn evs → (all_voted_broadcasts rid st evs ≤ 1)%nat.
Proof.
  revert st. induction evs as [|ev evs IH]; intros st Hevs; [cbn; lia|].
  apply Forall_cons in Hevs as [Hev Hevs].
  pose proof (within_turn_step st ev rid Hev) as Hstep.
  cbn [all_voted_broadcasts]. specialize (IH (step st ev).1 Hevs).
  destruct (rooms st !! rid) as [room|] eqn:Hroom.
  - destruct Hstep as (room' & Hroom' & Hp & Hmono & Hfire).
    destruct (emits_all_voted rid (step st ev).2); [|cbn; lia].
    destruct (Hfire eq_refl) as [Hlen _].
    rewrite (all_voted_spent rid evs _ room' Hevs Hroom') by (rewrite Hp; lia).
    lia.
  - destruct Hstep as [_ ->]. cbn. lia.
Qed.

Lemma all_voted_at_most_once_witness :
  (all_voted_broadcasts "R1" (run startup two_joined)
     [Vote "s1" "R1" "Alice" "Bob"; Vote "s2" "R1" "Bob" "Alice";
      Vote "s2" "R1" "Bob" "Alice"; DiscardCard "s1" "R1" "Alice" "c1"] ≤ 1)%nat.
Proof.
  apply (all_voted_at_most_once "R1").
  repeat constructor.
Defined.

(** ** connection and disconnect *)

(** X20: connecting a socket the registry does not hold and disconnecting it
    before it joins gives back the server as it was, with nothing sent. *)
Theorem connect_then_disconnect sid st :
  sid ∉ (sockets st).*1 →
  disconnect sid (connection sid st).1 = (st, []).
Proof.
  intros Hnew. destruct st as [rs ss]. cbn [sockets] in Hnew.
  unfold disconnect, connection. cbn [fst rooms sockets].
  assert (socket_data sid (ss ++ [(sid, None)]) = None) as ->.
  { unfold socket_data. induction ss as [|[s o] ss IH].
    - cbn. by rewrite bool_decide_eq_true_2.
    - rewrite fmap_cons in Hnew. apply not_elem_of_cons in Hnew as [Hne Hnew].
      cbn in Hne |- *. rewrite bool_decide_eq_false_2 by done. by apply IH. }
  assert (filter (λ s : string * option SocketData, s.1 ≠ sid)
            (ss ++ [(sid, None)]) = ss) as ->; [|done].
  rewrite filter_app, (filter_cons_False _ (sid, None)) by (cbn; tauto).
  rewrite filter_nil, app_nil_r.
  induction ss as [|[s o] ss IH]; [done|].
  rewrite fmap_cons in Hnew. apply not_elem_of_cons in Hnew as [Hne Hnew].
  rewrite filter_cons_True by (cbn in *; congruence). f_equal. by apply IH.
Qed.

Lemma connect_then_disconnect_witness :
  disconnect "s3" (connection "s3" barrier_minus_one).1 = (barrier_minus_one, []).
Proof.
  apply (connect_then_disconnect "s3" barrier_minus_one).
  apply (bool_decide_unpack ("s3" ∉ (sockets barrier_minus_one).*1)).
  vm_compute. exact I.
Defined.

(** ** The turn counter and the next-turn broadcasts *)

Lemma turn_counts_from rid evs : ∀ st t,
  room_turn rid st = Some t →
  room_turn rid (run st evs) = Some (t + next_turn_broadcasts rid st evs).
Proof.
  induction evs as [|ev evs IH]; intros st t Ht.
  - cbn. by rewrite Ht, Nat.add_0_r.
  - cbn [next_turn_broadcasts].
    pose proof (room_turn_step st ev rid t Ht) as Hstep.
    change (run st (ev :: evs)) with (run (step st ev).1 evs).
    rewrite (IH _ _ Hstep). f_equal.
    destruct (emits_next_turn rid (step st ev).2); lia.
Qed.

(** A room comes into being at turn 1. *)
Lemma room_created_at_turn_one st ev rid :
  room_turn rid st = None →
  emits_next_turn rid (step st ev).2 = false
  ∧ (room_turn rid (step st ev).1 = None
     ∨ room_turn rid (step st ev).1 = Some 1).
Proof.
  unfold room_turn. intros Hnone.
  destruct (rooms st !! rid) as [room|] eqn:Hroom; [done|].
  pose proof (step_turn st ev rid) as Hquiet. rewrite Hroom in Hquiet.
  split; [done|].
  destruct (rooms (step st ev).1 !! rid) as [room'|] eqn:Hroom'; [|by left].
  right. apply step_cards in Hroom' as Hfrom.
  destruct Hfrom as [(room0 & Hroom0 & _)|(_ & sid & name & sh & -> & _)];
    [congruence|].
  cbn [step] in Hroom'. rewrite join_room_eq in Hroom'. cbn [fst rooms] in Hroom'.
  rewrite lookup_insert_eq, Hroom in Hroom'. by injection Hroom' as <-.
Qed.

(** X21: in a run from startup the turn a room stands at is one more than
    the number of next-turn broadcasts made to it. *)
Theorem turn_counts_broadcasts evs rid t :
  room_turn rid (run startup evs) = Some t →
  t = 1 + next_turn_broadcasts rid startup evs.
Proof.
  assert (∀ st, room_turn rid st = None →
            (room_turn rid (run st evs) = None
             ∨ room_turn rid (run st evs)
               = Some (1 + next_turn_broadcasts rid st evs))) as Hnone.
  { induction evs as [|ev evs IH]; intros st Hst; [by left|].
    change (run st (ev :: evs)) with (run (step st ev).1 evs).
    cbn [next_turn_broadcasts].
    destruct (room_created_at_turn_one st ev rid Hst) as [-> [Hstay|Hmade]].
    - by apply IH.
    - right. by rewrite (turn_counts_from rid evs _ 1 Hmade). }
  intros Ht. destruct (Hnone startup eq_refl) as [Hno|Hyes]; congruence.
Qed.

Lemma turn_counts_broadcasts_witness :
  2 = 1 + next_turn_broadcasts "R1" startup full_round.
Proof.
  apply (turn_counts_broadcasts full_round "R1" 2).
  vm_compute. reflexivity.
Defined.

(** ** The deck *)

Lemma replenish_deck rid ss (subs : list Submission.t)
    (hs : gmap string (list Card)) (dk : list Card) outs :
  ∃ k, (fold_left (replenish rid ss) subs (hs, dk, outs)).1.2 = drop k dk.
Proof.
  induction subs as [|t subs IH] using rev_ind; [by exists 0|].
  destruct IH as [k Hk]. pose proof (replenish_snoc rid ss subs t hs dk outs) as Hs.
  cbn zeta in Hs. rewrite Hs. cbn [snd]. rewrite Hk, drop_drop. by eexists.
Qed.

Lemma move_deck ss rid room room' :
  room_move ss rid room room' → ∃ k, deck room' = drop k (deck room).
Proof.
  intros [name|name title used Hvalid|name target
         |name card hand Hhand Hin|name|name Hbar Hguard|name].
  - by exists 7.
  - by exists 0.
  - by exists 0.
  - by exists 1.
  - pose proof (mark_ready_frame rid name room)
      as (_ & _ & _ & _ & _ & -> & _). by exists 0.
  - pose proof (advance_turn_hands rid ss (mark_ready rid name room).1)
      as [_ ->].
    pose proof (mark_ready_frame rid name room)
      as (_ & _ & _ & _ & _ & -> & _).
    apply replenish_deck.
  - by exists 0.
Qed.

(** X22: the deck of a room is only ever consumed from the front: whatever
    events follow, the deck left is the old deck without some number of its
    first cards; nothing is put back or reordered. *)
Theorem deck_only_shrinks st evs rid room :
  rooms st !! rid = Some room →
  ∃ room' k, rooms (run st evs) !! rid = Some room'
             ∧ deck room' = drop k (deck room).
Proof.
  revert st room. induction evs as [|ev evs IH]; intros st room Hroom.
  - exists room, 0. by split.
  - change (run st (ev :: evs)) with (run (step st ev).1 evs).
    assert (∃ room1 k1, rooms (step st ev).1 !! rid = Some room1
                        ∧ deck room1 = drop k1 (deck room))
      as (room1 & k1 & Hroom1 & Hdeck1).
    { destruct (step_writes st ev)
        as [->|(rid' & room0 & room' & _ & Horigin & Hmv & ->)];
        [by exists room, 0|].
      destruct (decide (rid' = rid)) as [->|Hne].
      - rewrite lookup_insert_eq.
        destruct Horigin as [Hroom0|[Hnone _]]; [|congruence].
        assert (room0 = room) as -> by congruence.
        destruct (move_deck _ _ _ _ Hmv) as [k Hk]. by exists room', k.
      - rewrite lookup_insert_ne by done. by exists room, 0. }
    destruct (IH _ _ Hroom1) as (room' & k & Hroom' & Hdeck).
    exists room', (k1 + k). split; [done|].
    by rewrite Hdeck, Hdeck1, drop_drop.
Qed.

Lemma deck_only_shrinks_witness :
  ∃ room' k,
    rooms (run seated [JoinRoom "s2" "R1" "Bob" sixteen;
                       DiscardCard "s1" "R1" "Alice" "c1"]) !! "R1" = Some room'
    ∧ deck room' = drop k (deck (room_of "R1" seated)).
Proof.
  apply (deck_only_shrinks seated).
  vm_compute. reflexivity.
Defined.
